(** * blockservice: a shallow embedding of [blockservice/blockservice.go]

    The block service mediates between a local blockstore and a remote
    exchange.  Both are Go interfaces, so they appear here as type classes
    over an abstract state; a call on a collaborator takes the collaborator's
    state and returns its answer together with the new state.  Every call
    made on a collaborator, every log line and every send on the output
    channel is recorded, in program order, in the trace of the operation. *)

From Stdlib Require Import String List Bool Arith Lia.
From stdpp Require Import base option list gmap strings.

Import ListNotations.
Local Open Scope string_scope.
Local Open Scope list_scope.

(** ** Go values *)

(** [[]byte] *)
Definition bytes : Type := list Byte.byte.

#[global] Instance byte_eq_dec : EqDecision Byte.byte := Byte.byte_eq_dec.

#[global] Instance bytes_eq_dec : EqDecision bytes.
Proof. unfold bytes. apply _. Defined.

(** Go [error] values that the package creates or compares against.  A nil
    [error] is [None : option error]. *)
Inductive error : Type :=
| blockstore_ErrNotFound                 (* blockstore.ErrNotFound *)
| ErrNotFound                            (* var ErrNotFound, line 23 *)
| ErrClosed                              (* errors.New("blockservice is closed") *)
| ErrClosedBecause (cause : error)       (* fmt.Errorf("blockservice is closed (%s)", err) *)
| ErrOther (msg : string).               (* any other error of a collaborator *)

#[global] Instance error_eq_dec : EqDecision error.
Proof. solve_decision. Defined.

(** A Go pair [(T, error)] of which exactly one side is meaningful. *)
Inductive result (A : Type) : Type :=
| Ok (a : A)
| Err (e : error).
Arguments Ok {A} a.
Arguments Err {A} e.

(** How a call ends: it returns, or it panics on a nil interface. *)
Inductive outcome (A : Type) : Type :=
| Returns (a : A)
| Panics.
Arguments Returns {A} a.
Arguments Panics {A}.

(** [context.Context], as far as this package looks at it: [Done ctx n]
    tells whether, when the background task of a batched read is about to
    make its [n]-th send (counting from 0), the [select] takes the
    [<-ctx.Done()] branch instead of the send. *)
Record Context : Type := { Done : nat -> bool }.

(** [context.Background()]: never cancelled. *)
Definition Background : Context := {| Done := fun _ => false |}.

(** ** The collaborators *)

(** [*cid.Cid] with [verifcid.ValidateCid]. *)
Class CidOps (Cid : Type) : Type := {
  ToPublic : Cid -> Cid;                  (* c.ToPublic() *)
  KeyString : Cid -> string;              (* c.KeyString() *)
  ValidateCid : Cid -> option error       (* verifcid.ValidateCid(c) *)
}.

(** [blocks.Block] and [blocks.NewAutoDecryptedBlock].  The second argument
    of [NewAutoDecryptedBlock] is a pointer that the batched read takes out
    of a map, so it may be nil ([None]). *)
Class BlockOps (Cid Block : Type) : Type := {
  RawData : Block -> bytes;               (* b.RawData() *)
  Block_Cid : Block -> Cid;               (* b.Cid() *)
  Block_ToPublic : Block -> result Block; (* b.ToPublic() *)
  implementsToPublic : Block -> bool;     (* b.(interface{ ToPublic() ... }) *)
  NewAutoDecryptedBlock : bytes -> option Cid -> result Block
}.

(** [blockstore.Blockstore] over a store state [BS]. *)
Class Blockstore (Cid Block BS : Type) : Type := {
  blockstore_Has : BS -> Cid -> (bool * option error) * BS;
  blockstore_Get : BS -> Cid -> result Block * BS;
  blockstore_Put : BS -> Block -> option error * BS;
  blockstore_PutMany : BS -> list Block -> option error * BS;
  blockstore_DeleteBlock : BS -> Cid -> option error * BS
}.

(** [exchange.Interface] over an exchange state [EX].  The channel that
    [GetBlocks] returns is the finite list of the blocks received from it
    before it is closed. *)
Class Exchange (Cid Block EX : Type) : Type := {
  exchange_GetBlock : EX -> Context -> Cid -> result Block * EX;
  exchange_GetBlocks : EX -> Context -> list Cid -> result (list Block) * EX;
  exchange_HasBlock : EX -> Block -> option error * EX;
  exchange_Close : EX -> option error * EX
}.

Section Model.

Context {Cid Block BS EX : Type}.
Context {cidOps : CidOps Cid} {blockOps : BlockOps Cid Block}.
Context {store : Blockstore Cid Block BS} {exch : Exchange Cid Block EX}.

(** ** Traces *)

Inductive Event : Type :=
| Store_Has (c : Cid)
| Store_Get (c : Cid)
| Store_Put (b : Block)
| Store_PutMany (bs : list Block)
| Store_DeleteBlock (c : Cid)
| Exchange_GetBlock (c : Cid)
| Exchange_GetBlocks (cs : list Cid)
| Exchange_HasBlock (b : Block)
| Exchange_Close
| Log_Debug (msg : string)
| Log_UnsafeCid (c : Cid) (e : error)     (* log.Errorf("unsafe CID ...") *)
| Log_Event (name : string) (c : Cid)     (* log.Event(ctx, name, c) *)
| Send (b : Block)                        (* out <- b *)
| Close_out.                              (* close(out) *)

Definition is_store_call (ev : Event) : bool :=
  match ev with
  | Store_Has _ | Store_Get _ | Store_Put _ | Store_PutMany _
  | Store_DeleteBlock _ => true
  | _ => false
  end.

Definition is_store_write (ev : Event) : bool :=
  match ev with
  | Store_Put _ | Store_PutMany _ | Store_DeleteBlock _ => true
  | _ => false
  end.

Definition is_exchange_call (ev : Event) : bool :=
  match ev with
  | Exchange_GetBlock _ | Exchange_GetBlocks _ | Exchange_HasBlock _
  | Exchange_Close => true
  | _ => false
  end.

Definition store_calls (tr : list Event) : list Event :=
  List.filter is_store_call tr.

Definition store_writes (tr : list Event) : list Event :=
  List.filter is_store_write tr.

Definition exchange_calls (tr : list Event) : list Event :=
  List.filter is_exchange_call tr.

(** The blocks sent on the output channel, in order. *)
Fixpoint sent (tr : list Event) : list Block :=
  match tr with
  | [] => []
  | Send b :: tr' => b :: sent tr'
  | _ :: tr' => sent tr'
  end.

(** ** The service and its monad *)

(** [type blockService struct]; a nil [exchange] is [None].  The same record
    serves for the pair [(bs, f)] that [getBlock] and [getBlocks] receive. *)
Record blockService : Type := {
  blockstore : BS;
  exchange : option EX;
  checkFirst : bool
}.

(** A computation reads and updates the collaborators, returns or panics,
    and leaves the trace of what it did. *)
Definition M (A : Type) : Type :=
  blockService -> outcome A * blockService * list Event.

Definition ret {A} (a : A) : M A := fun s => (Returns a, s, []).

Definition bind {A B} (m : M A) (k : A -> M B) : M B :=
  fun s =>
    match m s with
    | (Returns a, s', tr) =>
        match k a s' with
        | (r, s'', tr') => (r, s'', tr ++ tr')
        end
    | (Panics, s', tr) => (Panics, s', tr)
    end.

Notation "x <- m ;; k" := (bind m (fun x => k))
  (at level 100, m at next level, right associativity).
Notation "m ;;; k" := (bind m (fun _ => k))
  (at level 100, right associativity).

Definition emit (ev : Event) : M unit := fun s => (Returns tt, s, [ev]).

(** A call on the blockstore. *)
Definition on_store {A} (ev : Event) (call : BS -> A * BS) : M A :=
  fun s =>
    let '(a, st) := call (blockstore s) in
    (Returns a,
     {| blockstore := st; exchange := exchange s; checkFirst := checkFirst s |},
     [ev]).

(** A call on the exchange; on a nil exchange the call panics. *)
Definition on_exchange {A} (ev : Event) (call : EX -> A * EX) : M A :=
  fun s =>
    match exchange s with
    | None => (Panics, s, [])
    | Some x =>
        let '(a, x') := call x in
        (Returns a,
         {| blockstore := blockstore s; exchange := Some x';
            checkFirst := checkFirst s |},
         [ev])
    end.

Definition store_Has (c : Cid) : M (bool * option error) :=
  on_store (Store_Has c) (fun st => blockstore_Has st c).
Definition store_Get (c : Cid) : M (result Block) :=
  on_store (Store_Get c) (fun st => blockstore_Get st c).
Definition store_Put (b : Block) : M (option error) :=
  on_store (Store_Put b) (fun st => blockstore_Put st b).
Definition store_PutMany (bs : list Block) : M (option error) :=
  on_store (Store_PutMany bs) (fun st => blockstore_PutMany st bs).
Definition store_DeleteBlock (c : Cid) : M (option error) :=
  on_store (Store_DeleteBlock c) (fun st => blockstore_DeleteBlock st c).

Definition fetcher_GetBlock (ctx : Context) (c : Cid) : M (result Block) :=
  on_exchange (Exchange_GetBlock c) (fun x => exchange_GetBlock x ctx c).
Definition fetcher_GetBlocks (ctx : Context) (cs : list Cid)
  : M (result (list Block)) :=
  on_exchange (Exchange_GetBlocks cs) (fun x => exchange_GetBlocks x ctx cs).
Definition exchange_announce (b : Block) : M (option error) :=
  on_exchange (Exchange_HasBlock b) (fun x => exchange_HasBlock x b).
Definition exchange_shutdown : M (option error) :=
  on_exchange Exchange_Close exchange_Close.

(** [f != nil] *)
Definition fetcher_configured : M bool :=
  fun s => (Returns (bool_decide (exchange s <> None)), s, []).

(** [s.checkFirst] *)
Definition get_checkFirst : M bool :=
  fun s => (Returns (checkFirst s), s, []).

(** [defer close(out)]: runs when the task returns and when it panics. *)
Definition defer_close_out {A} (task : M A) : M A :=
  fun s =>
    match task s with
    | (r, s', tr) => (r, s', tr ++ [Close_out])
    end.

(** ** Constructors (lines 74-98)

    Both warn in the log when [rem] is nil and accept it. *)

Definition New (bs : BS) (rem : option EX) : blockService :=
  {| blockstore := bs; exchange := rem; checkFirst := true |}.

Definition NewWriteThrough (bs : BS) (rem : option EX) : blockService :=
  {| blockstore := bs; exchange := rem; checkFirst := false |}.

(** ** Writes *)

(** The existence check of [AddBlock] (lines 143-147): [Some r] when the
    function returns [r] at line 145, [None] when it goes on. *)
Definition checkFirst_guard (c : Cid) : M (option (option error)) :=
  cf <- get_checkFirst ;;
  if cf then
    r <- store_Has c ;;
    let '(has, err) := r in
    ret (if has || bool_decide (err <> None) then Some err else None)
  else ret None.

(** [func (s *blockService) AddBlock(o blocks.Block) error] *)
Definition AddBlock (o : Block) : M (option error) :=
  match Block_ToPublic o with
  | Err err => ret (Some err)
  | Ok o =>
      let c := Block_Cid o in
      match ValidateCid c with
      | Some err => ret (Some err)
      | None =>
          early <- checkFirst_guard c ;;
          match early with
          | Some r => ret r
          | None =>
              perr <- store_Put o ;;
              match perr with
              | Some err => ret (Some err)
              | None =>
                  emit (Log_Event "BlockService.BlockAdded" c) ;;;
                  herr <- exchange_announce o ;;
                  match herr with
                  | Some _ => ret (Some ErrClosed)
                  | None => ret None
                  end
              end
          end
      end
  end.

(** The body of the first loop of [AddBlocks] (lines 166-174): the block
    that is stored in [bs2] for [b], or the error of its [ToPublic]. *)
Definition publicOf (b : Block) : result Block :=
  if implementsToPublic b then Block_ToPublic b else Ok b.

(** The first loop of [AddBlocks] (lines 164-175): [bs2], or the first
    error of a [ToPublic]. *)
Fixpoint toPublicAll (bs : list Block) : result (list Block) :=
  match bs with
  | [] => Ok []
  | b :: rest =>
      match publicOf b with
      | Err err => Err err
      | Ok b2 =>
          match toPublicAll rest with
          | Err err => Err err
          | Ok bs2 => Ok (b2 :: bs2)
          end
      end
  end.

(** The second loop (lines 177-182): the first validation error, if any. *)
Fixpoint validateAll (bs2 : list Block) : option error :=
  match bs2 with
  | [] => None
  | b :: rest =>
      match ValidateCid (Block_Cid b) with
      | Some err => Some err
      | None => validateAll rest
      end
  end.

(** The third loop (lines 186-194), with [toput] as accumulator. *)
Fixpoint selectAbsent (bs2 toput : list Block) : M (result (list Block)) :=
  match bs2 with
  | [] => ret (Ok toput)
  | b :: rest =>
      r <- store_Has (Block_Cid b) ;;
      let '(has, err) := r in
      match err with
      | Some e => ret (Err e)
      | None =>
          if has then selectAbsent rest toput
          else selectAbsent rest (toput ++ [b])
      end
  end.

(** The last loop (lines 204-210). *)
Fixpoint announceAll (toput : list Block) : M (option error) :=
  match toput with
  | [] => ret None
  | o :: rest =>
      emit (Log_Event "BlockService.BlockAdded" (Block_Cid o)) ;;;
      herr <- exchange_announce o ;;
      match herr with
      | Some err => ret (Some (ErrClosedBecause err))
      | None => announceAll rest
      end
  end.

(** Lines 199-211: the bulk write and the announcements. *)
Definition putAndAnnounce (toput : list Block) : M (option error) :=
  perr <- store_PutMany toput ;;
  match perr with
  | Some err => ret (Some err)
  | None => announceAll toput
  end.

(** Lines 183-197: [toput], or the error of a [Has]. *)
Definition chooseToput (bs2 : list Block) : M (result (list Block)) :=
  cf <- get_checkFirst ;;
  if cf then selectAbsent bs2 [] else ret (Ok bs2).

(** [func (s *blockService) AddBlocks(bs []blocks.Block) error] *)
Definition AddBlocks (bs : list Block) : M (option error) :=
  match toPublicAll bs with
  | Err err => ret (Some err)
  | Ok bs2 =>
      match validateAll bs2 with
      | Some err => ret (Some err)
      | None =>
          r <- chooseToput bs2 ;;
          match r with
          | Err err => ret (Some err)
          | Ok toput => putAndAnnounce toput
          end
      end
  end.

(** [func (s *blockService) DeleteBlock(c *cid.Cid) error] *)
Definition DeleteBlock (c : Cid) : M (option error) :=
  let c2 := ToPublic c in
  err <- store_DeleteBlock c2 ;;
  match err with
  | None => emit (Log_Event "BlockService.BlockDeleted" c) ;;; ret None
  | Some e => ret (Some e)
  end.

(** [func (s *blockService) Close() error] *)
Definition Close : M (option error) :=
  emit (Log_Debug "blockservice is shutting down...") ;;;
  exchange_shutdown.

(** ** Single-key read *)

(** [func getBlock(ctx, c, bs, f)]: [bs] and [f] are the store and the
    exchange of the state. *)
Definition getBlock (ctx : Context) (c : Cid) : M (result Block) :=
  let c2 := ToPublic c in
  match ValidateCid c2 with
  | Some err => ret (Err err)
  | None =>
      r <- store_Get c2 ;;
      match r with
      | Ok block => ret (NewAutoDecryptedBlock (RawData block) (Some c))
      | Err err =>
          has_f <- fetcher_configured ;;
          if bool_decide (err = blockstore_ErrNotFound) && has_f then
            emit (Log_Debug "Blockservice: Searching bitswap") ;;;
            r' <- fetcher_GetBlock ctx c2 ;;
            match r' with
            | Err err' =>
                if bool_decide (err' = blockstore_ErrNotFound)
                then ret (Err ErrNotFound)
                else ret (Err err')
            | Ok blk =>
                emit (Log_Event "BlockService.BlockFetched" c) ;;;
                ret (NewAutoDecryptedBlock (RawData blk) (Some c))
            end
          else
            emit (Log_Debug "Blockservice GetBlock: Not found") ;;;
            if bool_decide (err = blockstore_ErrNotFound)
            then ret (Err ErrNotFound)
            else ret (Err err)
      end
  end.

(** [func (s *blockService) GetBlock(ctx, c)].  Lines 219-222 copy
    [s.exchange] into [f] when it is not nil and leave [f] nil otherwise,
    so [f] is the exchange of the state. *)
Definition GetBlock (ctx : Context) (c : Cid) : M (result Block) :=
  emit (Log_Debug "BlockService GetBlock") ;;;
  getBlock ctx c.

(** ** Batched read *)

(** Lines 272-277: [ks2] and [mapping]. *)
Definition publicKeys (ks : list Cid) : list Cid := map ToPublic ks.

Definition buildMapping (ks : list Cid) : gmap string Cid :=
  foldl (fun m c => <[KeyString (ToPublic c) := c]> m) ∅ ks.

(** Lines 280-285: the validation loop. *)
Fixpoint logUnsafe (ks2 : list Cid) : M unit :=
  match ks2 with
  | [] => ret tt
  | c :: rest =>
      match ValidateCid c with
      | Some err => emit (Log_UnsafeCid c err) ;;; logUnsafe rest
      | None => logUnsafe rest
      end
  end.

(** Lines 302-306 and 327-331: the [select].  [n] is the number of sends
    made so far; the answer is [false] when the task has to return. *)
Definition select_send (ctx : Context) (n : nat) (b : Block) : M bool :=
  if Done ctx n then ret false
  else emit (Send b) ;;; ret true.

(** Lines 290-307: the scan of the local store.  [None] when the task
    returned at line 305, else the misses and the number of sends. *)
Fixpoint scanLocal (ctx : Context) (mapping : gmap string Cid)
    (ks2 misses : list Cid) (n : nat) : M (option (list Cid * nat)) :=
  match ks2 with
  | [] => ret (Some (misses, n))
  | c :: rest =>
      r <- store_Get c ;;
      match r with
      | Err _ => scanLocal ctx mapping rest (misses ++ [c]) n
      | Ok hit =>
          let c2 := mapping !! KeyString c in
          match NewAutoDecryptedBlock (RawData hit) c2 with
          | Err _ => scanLocal ctx mapping rest misses n
          | Ok hit' =>
              sent_it <- select_send ctx n hit' ;;
              if sent_it then scanLocal ctx mapping rest misses (n + 1)
              else ret None
          end
      end
  end.

(** Lines 319-332: the loop over the exchange's channel. *)
Fixpoint forwardRemote (ctx : Context) (mapping : gmap string Cid)
    (rblocks : list Block) (n : nat) : M unit :=
  match rblocks with
  | [] => ret tt
  | b :: rest =>
      let c2 := mapping !! KeyString (Block_Cid b) in
      match NewAutoDecryptedBlock (RawData b) c2 with
      | Err _ => forwardRemote ctx mapping rest n
      | Ok b' =>
          emit (Log_Event "BlockService.BlockFetched" (Block_Cid b')) ;;;
          sent_it <- select_send ctx n b' ;;
          if sent_it then forwardRemote ctx mapping rest (n + 1)
          else ret tt
      end
  end.

(** Lines 287-333: the background task. *)
Definition getBlocks_task (ctx : Context) (mapping : gmap string Cid)
    (ks2 : list Cid) : M unit :=
  defer_close_out (
    scanned <- scanLocal ctx mapping ks2 [] 0 ;;
    match scanned with
    | None => ret tt
    | Some (misses, n) =>
        if Nat.eqb (length misses) 0 then ret tt
        else
          r <- fetcher_GetBlocks ctx misses ;;
          match r with
          | Err _ => emit (Log_Debug "Error with GetBlocks") ;;; ret tt
          | Ok rblocks => forwardRemote ctx mapping rblocks n
          end
    end).

(** [func getBlocks(ctx, ks, bs, f)]: the whole run of the call, up to
    the end of the background task; the stream the caller receives is
    [sent] of the trace. *)
Definition getBlocks (ctx : Context) (ks : list Cid) : M unit :=
  let ks2 := publicKeys ks in
  let mapping := buildMapping ks in
  logUnsafe ks2 ;;;
  getBlocks_task ctx mapping ks2.

(** [func (s *blockService) GetBlocks(ctx, ks)] *)
Definition GetBlocks (ctx : Context) (ks : list Cid) : M unit :=
  getBlocks ctx ks.

(** [func (s *Session) GetBlock] and [func (s *Session) GetBlocks] (lines
    360-367): the same two functions, on the session's own [bs] and
    [ses]. *)
Definition Session_GetBlock (ctx : Context) (c : Cid) : M (result Block) :=
  getBlock ctx c.

Definition Session_GetBlocks (ctx : Context) (ks : list Cid) : M unit :=
  getBlocks ctx ks.

(** ** Notions used to state the properties *)

(** [b] is what [NewAutoDecryptedBlock] builds for the caller's identifier
    [c] from some public payload. *)
Definition projectedFor (c : Cid) (b : Block) : Prop :=
  exists raw : bytes, NewAutoDecryptedBlock raw (Some c) = Ok b.

(** Whether a sequential scan of the store that starts in state [st] finds
    every key of [ks2]: the answers of [Get], asked in the order of the
    scan. *)
Fixpoint foundLocally (st : BS) (ks2 : list Cid) : bool :=
  match ks2 with
  | [] => true
  | c :: rest =>
      match blockstore_Get st c with
      | (Ok _, st') => foundLocally st' rest
      | (Err _, _) => false
      end
  end.

(** The number of sends that the local scan of [ks2] attempts when it
    starts in store state [st] and is never cancelled: one for every key
    that [Get] finds and whose payload is projected without error. *)
Fixpoint localHits (mapping : gmap string Cid) (st : BS) (ks2 : list Cid)
  : nat :=
  match ks2 with
  | [] => 0
  | c :: rest =>
      match blockstore_Get st c with
      | (Ok hit, st') =>
          match NewAutoDecryptedBlock (RawData hit) (mapping !! KeyString c)
          with
          | Ok _ => S (localHits mapping st' rest)
          | Err _ => localHits mapping st' rest
          end
      | (Err _, st') => localHits mapping st' rest
      end
  end.

(** Whether the existence checks of a batch, asked in order from the store
    state [st], all answer "present" without error. *)
Fixpoint allHeld (st : BS) (bs2 : list Block) : bool :=
  match bs2 with
  | [] => true
  | b :: rest =>
      match blockstore_Has st (Block_Cid b) with
      | ((true, None), st') => allHeld st' rest
      | _ => false
      end
  end.

End Model.

(** ** An in-memory instance of the collaborators

    Identifiers carry a hash function code, a digest and optional key
    material; the store is a list of blocks that can be switched to fail;
    the exchange answers from the list of blocks its peers hold. *)
Module Mem.

Record cid : Type := { hashFn : nat; digest : string; key : option string }.

#[global] Instance cid_eq_dec : EqDecision cid.
Proof. solve_decision. Defined.

Definition toPublic (c : cid) : cid :=
  {| hashFn := hashFn c; digest := digest c; key := None |}.

Definition insecureHash : error :=
  ErrOther "potentially insecure hash functions not allowed".

Definition validate (c : cid) : option error :=
  if Nat.eqb (hashFn c) 0 then Some insecureHash
  else if Nat.ltb (String.length (digest c)) 4 then
    Some (ErrOther "digest too short")
  else None.

#[global] Instance cidOps : CidOps cid :=
  {| ToPublic := toPublic; KeyString := digest; ValidateCid := validate |}.

Record block : Type := { data : bytes; id : cid }.

#[global] Instance block_eq_dec : EqDecision block.
Proof. solve_decision. Defined.

Definition blockToPublic (b : block) : result block :=
  Ok {| data := data b; id := toPublic (id b) |}.

Definition newAutoDecryptedBlock (raw : bytes) (c : option cid)
  : result block :=
  match c with
  | Some c => Ok {| data := raw; id := c |}
  | None => Err (ErrOther "nil cid")
  end.

#[global] Instance blockOps : BlockOps cid block :=
  {| RawData := data; Block_Cid := id; Block_ToPublic := blockToPublic;
     implementsToPublic := fun _ => true;
     NewAutoDecryptedBlock := newAutoDecryptedBlock |}.

(** The store: [failing] makes every call return an I/O error. *)
Record memStore : Type := { held : list block; failing : bool }.

Definition ioError : error := ErrOther "input/output error".

Definition holds (c : cid) (b : block) : bool := bool_decide (id b = c).

Definition memHas (st : memStore) (c : cid) : (bool * option error) * memStore :=
  if failing st then ((false, Some ioError), st)
  else ((existsb (holds c) (held st), None), st).

Definition memGet (st : memStore) (c : cid) : result block * memStore :=
  if failing st then (Err ioError, st)
  else match List.find (holds c) (held st) with
       | Some b => (Ok b, st)
       | None => (Err blockstore_ErrNotFound, st)
       end.

Definition memPutMany (st : memStore) (bs : list block)
  : option error * memStore :=
  if failing st then (Some ioError, st)
  else (None, {| held := held st ++ bs; failing := false |}).

Definition memPut (st : memStore) (b : block) : option error * memStore :=
  memPutMany st [b].

Definition memDelete (st : memStore) (c : cid) : option error * memStore :=
  if failing st then (Some ioError, st)
  else (None, {| held := List.filter (fun b => negb (holds c b)) (held st);
                 failing := false |}).

#[global] Instance store : Blockstore cid block memStore :=
  {| blockstore_Has := memHas; blockstore_Get := memGet;
     blockstore_Put := memPut; blockstore_PutMany := memPutMany;
     blockstore_DeleteBlock := memDelete |}.

(** The exchange: [peers] lists the blocks that arrive from the network,
    in the order of their arrival; after [Close] every announcement fails. *)
Record memExchange : Type := { peers : list block; closed : bool }.

Definition wanted (cs : list cid) (b : block) : bool :=
  existsb (fun c => bool_decide (id b = c)) cs.

Definition memFetch (x : memExchange) (_ : Context) (c : cid)
  : result block * memExchange :=
  match List.find (holds c) (peers x) with
  | Some b => (Ok b, x)
  | None => (Err blockstore_ErrNotFound, x)
  end.

Definition memFetchMany (x : memExchange) (_ : Context) (cs : list cid)
  : result (list block) * memExchange :=
  (Ok (List.filter (wanted cs) (peers x)), x).

Definition memAnnounce (x : memExchange) (_ : block)
  : option error * memExchange :=
  if closed x then (Some (ErrOther "bitswap is closed"), x) else (None, x).

Definition memClose (x : memExchange) : option error * memExchange :=
  (None, {| peers := peers x; closed := true |}).

#[global] Instance exch : Exchange cid block memExchange :=
  {| exchange_GetBlock := memFetch; exchange_GetBlocks := memFetchMany;
     exchange_HasBlock := memAnnounce; exchange_Close := memClose |}.

(** Sample identifiers and blocks. *)
Definition sha256 : nat := 18.
Definition insecure : nat := 0.

Definition goodCid : cid :=
  {| hashFn := sha256; digest := "QmGoodDigest"; key := None |}.
Definition otherCid : cid :=
  {| hashFn := sha256; digest := "QmOtherDigest"; key := None |}.
Definition keyedCid : cid :=
  {| hashFn := sha256; digest := "QmGoodDigest"; key := Some "k1" |}.
Definition keyedCid' : cid :=
  {| hashFn := sha256; digest := "QmGoodDigest"; key := Some "k2" |}.
Definition badCid : cid :=
  {| hashFn := insecure; digest := "QmBadDigest"; key := None |}.

Definition payload : bytes := [Byte.x68; Byte.x69].

Definition goodBlock : block := {| data := payload; id := goodCid |}.
Definition otherBlock : block := {| data := payload; id := otherCid |}.
Definition badBlock : block := {| data := payload; id := badCid |}.

Definition emptyStore : memStore := {| held := []; failing := false |}.
Definition brokenStore : memStore := {| held := []; failing := true |}.
Definition storeWith (bs : list block) : memStore :=
  {| held := bs; failing := false |}.

Definition network (bs : list block) : memExchange :=
  {| peers := bs; closed := false |}.
Definition closedExchange : memExchange := {| peers := []; closed := true |}.

(** A context that is already cancelled. *)
Definition cancelled : Context := {| Done := fun _ => true |}.

(** A context that is cancelled once one block has been sent. *)
Definition cancelledAfterOne : Context := {| Done := fun n => Nat.leb 1 n |}.

(** A second block format, whose [ToPublic] refuses a block without
    payload. *)
Definition strictToPublic (b : block) : result block :=
  match data b with
  | [] => Err (ErrOther "malformed block")
  | _ => blockToPublic b
  end.

Definition strictBlockOps : BlockOps cid block :=
  {| RawData := data; Block_Cid := id; Block_ToPublic := strictToPublic;
     implementsToPublic := fun _ => true;
     NewAutoDecryptedBlock := newAutoDecryptedBlock |}.

Definition emptyBlock : block := {| data := []; id := goodCid |}.

(** Services without and with an exchange. *)
Definition offline (st : memStore) : @blockService memStore memExchange :=
  New st None.

Definition online (st : memStore) (arriving : list block)
  : @blockService memStore memExchange :=
  New st (Some (network arriving)).

End Mem.

(** * Properties *)

Section Properties.

Context {Cid Block BS EX : Type}.
Context {cidOps : CidOps Cid} {blockOps : BlockOps Cid Block}.
Context {store : Blockstore Cid Block BS} {exch : Exchange Cid Block EX}.

Local Abbreviation service := (@blockService BS EX).
Local Abbreviation trace := (list (@Event Cid Block)).

(** Unfolds the monad and the calls on the collaborators. *)
Ltac run :=
  unfold store_Has, store_Get, store_Put, store_PutMany, store_DeleteBlock,
    fetcher_GetBlock, fetcher_GetBlocks, exchange_announce, exchange_shutdown,
    fetcher_configured, get_checkFirst, on_store, on_exchange, emit, bind, ret
    in *;
  simpl in *.

(** ** Single-key read *)

(** C6 — an identifier whose Public Form fails validation: [GetBlock] and
    [AddBlock] both return the validation error, leave store and exchange as
    they were, and make no call on either. *)
Theorem inadmissible_rejected_untouched
    (ctx : Context) (c : Cid) (o o' : Block) (err err' : error) (s : service) :
  ValidateCid (ToPublic c) = Some err ->
  Block_ToPublic o = Ok o' ->
  ValidateCid (Block_Cid o') = Some err' ->
  (exists tr : trace,
      GetBlock ctx c s = (Returns (Err err), s, tr)
      /\ store_calls tr = [] /\ exchange_calls tr = [])
  /\ (exists tr : trace,
      AddBlock o s = (Returns (Some err'), s, tr)
      /\ store_calls tr = [] /\ exchange_calls tr = []).
Proof.
  intros Hc Ho Ho'. split.
  - eexists. unfold GetBlock, getBlock. rewrite Hc. run.
    repeat split; reflexivity.
  - eexists. unfold AddBlock. rewrite Ho, Ho'. run.
    repeat split; reflexivity.
Qed.

(** C8 — no remote fetcher, valid key, local miss: [GetBlock] returns the
    package's own [ErrNotFound]; it does not panic and calls no exchange. *)
Theorem offline_miss_is_not_found
    (ctx : Context) (c : Cid) (s : service) (st' : BS) :
  exchange s = None ->
  ValidateCid (ToPublic c) = None ->
  blockstore_Get (blockstore s) (ToPublic c) = (Err blockstore_ErrNotFound, st') ->
  exists (s' : service) (tr : trace),
    GetBlock ctx c s = (Returns (Err ErrNotFound), s', tr)
    /\ exchange_calls tr = []
    /\ exchange s' = None.
Proof.
  intros Hnil Hvalid Hget.
  unfold GetBlock, getBlock. rewrite Hvalid. run.
  rewrite Hget, Hnil. simpl.
  do 2 eexists. repeat split; reflexivity.
Qed.

(** C10 — a store error other than [blockstore.ErrNotFound] is returned
    as it is and the exchange is not consulted, whether or not a fetcher is
    configured; whenever [GetBlock] does call the exchange, the store had
    answered [blockstore.ErrNotFound]. *)
Theorem fallback_only_on_store_not_found
    (ctx : Context) (c : Cid) (s : service) :
  (forall (e : error) (st' : BS),
      ValidateCid (ToPublic c) = None ->
      blockstore_Get (blockstore s) (ToPublic c) = (Err e, st') ->
      e <> blockstore_ErrNotFound ->
      exists (s' : service) (tr : trace),
        GetBlock ctx c s = (Returns (Err e), s', tr)
        /\ exchange_calls tr = []
        /\ exchange s' = exchange s)
  /\ (forall (r : outcome (result Block)) (s' : service) (tr : trace),
      GetBlock ctx c s = (r, s', tr) ->
      exchange_calls tr <> [] ->
      exists st' : BS,
        blockstore_Get (blockstore s) (ToPublic c)
        = (Err blockstore_ErrNotFound, st')).
Proof.
  split.
  - intros e st' Hvalid Hget Hne.
    unfold GetBlock, getBlock. rewrite Hvalid. run.
    rewrite Hget. simpl.
    rewrite (bool_decide_eq_false_2 _ Hne). simpl.
    do 2 eexists. repeat split; reflexivity.
  - intros r s' tr Hrun Hcalls.
    unfold GetBlock, getBlock in Hrun.
    destruct (ValidateCid (ToPublic c)) as [verr|].
    { run. inversion Hrun; subst. simpl in Hcalls. congruence. }
    run.
    destruct (blockstore_Get (blockstore s) (ToPublic c)) as [[blk|e] st'] eqn:Hget.
    { simpl in Hrun. inversion Hrun; subst. simpl in Hcalls. congruence. }
    simpl in Hrun.
    destruct (bool_decide (e = blockstore_ErrNotFound)) eqn:He.
    + apply bool_decide_eq_true_1 in He. subst e. eauto.
    + simpl in Hrun. inversion Hrun; subst. simpl in Hcalls. congruence.
Qed.

(** ** Writes *)

(** C5 (as amended) — for a valid block: in check-first mode a block that
    the store already holds is neither written nor announced and the call
    succeeds; in write-through mode the store is never asked [Has] and
    [Put] is always called; when that [Put] fails its error is returned and
    nothing is announced, and when it succeeds and an exchange is
    configured the block is announced. *)
Theorem AddBlock_check_first_and_write_through
    (o o' : Block) (s : service) :
  Block_ToPublic o = Ok o' ->
  ValidateCid (Block_Cid o') = None ->
  (forall st' : BS,
      checkFirst s = true ->
      blockstore_Has (blockstore s) (Block_Cid o') = ((true, None), st') ->
      exists (s' : service) (tr : trace),
        AddBlock o s = (Returns None, s', tr)
        /\ store_writes tr = [] /\ exchange_calls tr = []
        /\ blockstore s' = st' /\ exchange s' = exchange s)
  /\ (checkFirst s = false ->
      forall (perr : option error) (st' : BS),
        blockstore_Put (blockstore s) o' = (perr, st') ->
        exists (r : outcome (option error)) (s' : service) (tr : trace),
          AddBlock o s = (r, s', tr)
          /\ store_calls tr = [Store_Put o']
          /\ blockstore s' = st'
          /\ (forall e : error, perr = Some e ->
                r = Returns (Some e) /\ exchange_calls tr = [])
          /\ (perr = None -> exchange s <> None ->
                exchange_calls tr = [Exchange_HasBlock o'])).
Proof.
  intros Ho Hvalid. split.
  - intros st' Hcf Hhas.
    unfold AddBlock, checkFirst_guard. rewrite Ho, Hvalid. run.
    rewrite Hcf. simpl. rewrite Hhas. simpl.
    do 2 eexists. repeat split; reflexivity.
  - intros Hcf perr st' Hput.
    unfold AddBlock, checkFirst_guard. rewrite Ho, Hvalid. run.
    rewrite Hcf. simpl. rewrite Hput. simpl.
    destruct perr as [e|]; simpl.
    + do 3 eexists. split; [reflexivity|]. simpl.
      repeat split; try reflexivity; intros; congruence.
    + destruct (exchange s) as [x|] eqn:Hx; simpl.
      * destruct (exchange_HasBlock x o') as [herr x'] eqn:Hann.
        destruct herr; simpl;
          (do 3 eexists; split; [reflexivity|]; simpl;
           repeat split; try reflexivity; intros; congruence).
      * do 3 eexists. split; [reflexivity|]. simpl.
        repeat split; try reflexivity; intros; congruence.
Qed.

Lemma toPublicAll_In (bs bs2 : list Block) (b b2 : Block) :
  toPublicAll bs = Ok bs2 -> In b bs -> publicOf b = Ok b2 -> In b2 bs2.
Proof.
  revert bs2. induction bs as [|a rest IH]; intros bs2 Hall Hin Hpub.
  - destruct Hin.
  - simpl in Hall.
    destruct (publicOf a) as [a2|] eqn:Ha; [|discriminate].
    destruct (toPublicAll rest) as [rest2|] eqn:Hrest; [|discriminate].
    inversion Hall; subst bs2.
    destruct Hin as [->|Hin].
    + left. congruence.
    + right. eapply IH; eauto.
Qed.

Lemma validateAll_None (bs2 : list Block) (b2 : Block) :
  validateAll bs2 = None -> In b2 bs2 -> ValidateCid (Block_Cid b2) = None.
Proof.
  induction bs2 as [|a rest IH]; intros Hall Hin.
  - destruct Hin.
  - simpl in Hall.
    destruct (ValidateCid (Block_Cid a)) eqn:Ha; [discriminate|].
    destruct Hin as [->|Hin]; auto.
Qed.

(** C4 — a batch with a block that fails validation: [AddBlocks] returns
    an error before it makes any call on the store or on the exchange, so
    nothing is persisted and nothing is announced. *)
Theorem AddBlocks_invalid_block_aborts_batch
    (bs : list Block) (s : service) (b b2 : Block) (e : error) :
  In b bs ->
  publicOf b = Ok b2 ->
  ValidateCid (Block_Cid b2) = Some e ->
  exists (err : error) (tr : trace),
    AddBlocks bs s = (Returns (Some err), s, tr)
    /\ store_calls tr = [] /\ exchange_calls tr = [].
Proof.
  intros Hin Hpub Hbad. unfold AddBlocks.
  destruct (toPublicAll bs) as [bs2|err] eqn:Hall.
  - destruct (validateAll bs2) as [err|] eqn:Hval.
    + exists err, []. repeat split; reflexivity.
    + pose proof (toPublicAll_In _ _ _ _ Hall Hin Hpub) as Hin2.
      pose proof (validateAll_None _ _ Hval Hin2). congruence.
  - exists err, []. repeat split; reflexivity.
Qed.

(** The announcements touch neither the store nor the mode. *)
Lemma announceAll_frame (toput : list Block) (s s' : service)
    (r : outcome (option error)) (tr : trace) :
  announceAll toput s = (r, s', tr) ->
  blockstore s' = blockstore s /\ checkFirst s' = checkFirst s
  /\ store_calls tr = [].
Proof.
  revert s s' r tr. induction toput as [|o rest IH]; intros s s' r tr Hrun.
  - run. inversion Hrun; subst. auto.
  - simpl in Hrun. run.
    destruct (exchange s) as [x|] eqn:Hx.
    + destruct (exchange_HasBlock x o) as [[err|] x'] eqn:Hann; simpl in Hrun.
      * inversion Hrun; subst. auto.
      * destruct (announceAll rest _) as [[r0 s0] tr0] eqn:Hrest.
        apply IH in Hrest. simpl in Hrest.
        inversion Hrun; subst. simpl. tauto.
    + inversion Hrun; subst. auto.
Qed.

(** When every announcement succeeds, each block was announced once, in
    order. *)
Lemma announceAll_success (toput : list Block) (s s' : service) (tr : trace) :
  announceAll toput s = (Returns None, s', tr) ->
  exchange_calls tr = map Exchange_HasBlock toput.
Proof.
  revert s s' tr. induction toput as [|o rest IH]; intros s s' tr Hrun.
  - run. inversion Hrun; subst. reflexivity.
  - simpl in Hrun. run.
    destruct (exchange s) as [x|] eqn:Hx; [|discriminate].
    destruct (exchange_HasBlock x o) as [[err|] x'] eqn:Hann; simpl in Hrun;
      [discriminate|].
    destruct (announceAll rest _) as [[r0 s0] tr0] eqn:Hrest.
    inversion Hrun; subst. apply IH in Hrest. simpl. now rewrite Hrest.
Qed.

(** The first failing announcement ends the loop. *)
Lemma announceAll_first_failure (pre post : list Block) (o : Block)
    (s s3 : service) (tr3 : trace) (x x' : EX) (e : error) :
  announceAll pre s = (Returns None, s3, tr3) ->
  exchange s3 = Some x ->
  exchange_HasBlock x o = (Some e, x') ->
  announceAll (pre ++ o :: post) s
  = (Returns (Some (ErrClosedBecause e)),
     {| blockstore := blockstore s3; exchange := Some x';
        checkFirst := checkFirst s3 |},
     tr3 ++ [Log_Event "BlockService.BlockAdded" (Block_Cid o);
             Exchange_HasBlock o]).
Proof.
  revert s tr3. induction pre as [|p pre IH]; intros s tr3 Hpre Hx Hann.
  - simpl in *. run. inversion Hpre; subst. rewrite Hx, Hann. reflexivity.
  - simpl in Hpre |- *. run.
    destruct (exchange s) as [x0|] eqn:Hx0; [|discriminate].
    destruct (exchange_HasBlock x0 p) as [[err|] x0'] eqn:Hann0; simpl in *;
      [discriminate|].
    destruct (announceAll pre _) as [[r0 s0] tr0] eqn:Hrest.
    inversion Hpre; subst.
    rewrite (IH _ _ Hrest Hx Hann). reflexivity.
Qed.

(** The existence checks of a batch are reads of the store only. *)
Lemma selectAbsent_frame (bs2 toput : list Block) (s s' : service)
    (r : outcome (result (list Block))) (tr : trace) :
  selectAbsent bs2 toput s = (r, s', tr) ->
  exchange s' = exchange s /\ checkFirst s' = checkFirst s
  /\ store_writes tr = [] /\ exchange_calls tr = [].
Proof.
  revert toput s s' r tr.
  induction bs2 as [|b rest IH]; intros toput s s' r tr Hrun.
  - run. inversion Hrun; subst. auto.
  - simpl in Hrun. run.
    destruct (blockstore_Has (blockstore s) (Block_Cid b)) as [[has err] st1].
    destruct err as [e|]; simpl in Hrun.
    + inversion Hrun; subst. auto.
    + destruct has.
      * destruct (selectAbsent rest toput _) as [[r0 s0] tr0] eqn:Hrest.
        apply IH in Hrest. simpl in Hrest. inversion Hrun; subst. tauto.
      * destruct (selectAbsent rest (toput ++ [b]) _) as [[r0 s0] tr0] eqn:Hrest.
        apply IH in Hrest. simpl in Hrest. inversion Hrun; subst. tauto.
Qed.

Lemma chooseToput_frame (bs2 : list Block) (s s' : service)
    (r : outcome (result (list Block))) (tr : trace) :
  chooseToput bs2 s = (r, s', tr) ->
  exchange s' = exchange s /\ checkFirst s' = checkFirst s
  /\ store_writes tr = [] /\ exchange_calls tr = [].
Proof.
  unfold chooseToput. run. intros Hrun.
  destruct (checkFirst s) eqn:Hcf.
  - destruct (selectAbsent bs2 [] s) as [[r0 s0] tr0] eqn:Hsel.
    inversion Hrun; subst.
    apply selectAbsent_frame in Hsel. rewrite Hcf in Hsel. exact Hsel.
  - inversion Hrun; subst. auto.
Qed.

Lemma filter_app_eq {A} (f : A -> bool) (l1 l2 : list A) :
  List.filter f (l1 ++ l2) = List.filter f l1 ++ List.filter f l2.
Proof. apply List.filter_app. Qed.

(** C7 — the store write succeeded and the announcement fails: the call
    returns an error, the store stays as the write left it and no further
    call is made on it; in [AddBlocks] the blocks after the first failing
    announcement are not announced. *)
Theorem announce_failure_is_error_without_rollback :
  (forall (o o' : Block) (s s1 : service) (tr1 : trace) (st2 : BS)
          (x x' : EX) (e : error),
      Block_ToPublic o = Ok o' ->
      ValidateCid (Block_Cid o') = None ->
      checkFirst_guard (Block_Cid o') s = (Returns None, s1, tr1) ->
      blockstore_Put (blockstore s1) o' = (None, st2) ->
      exchange s1 = Some x ->
      exchange_HasBlock x o' = (Some e, x') ->
      exists s' : service,
        AddBlock o s
        = (Returns (Some ErrClosed), s',
           tr1 ++ [Store_Put o';
                   Log_Event "BlockService.BlockAdded" (Block_Cid o');
                   Exchange_HasBlock o'])
        /\ blockstore s' = st2)
  /\ (forall (bs bs2 toput pre post : list Block) (o : Block)
             (s s1 s3 : service) (tr1 tr3 : trace) (st2 : BS)
             (x x' : EX) (e : error),
      toPublicAll bs = Ok bs2 ->
      validateAll bs2 = None ->
      chooseToput bs2 s = (Returns (Ok toput), s1, tr1) ->
      blockstore_PutMany (blockstore s1) toput = (None, st2) ->
      toput = pre ++ o :: post ->
      announceAll pre {| blockstore := st2; exchange := exchange s1;
                         checkFirst := checkFirst s1 |}
      = (Returns None, s3, tr3) ->
      exchange s3 = Some x ->
      exchange_HasBlock x o = (Some e, x') ->
      exists (s' : service) (tr : trace),
        AddBlocks bs s = (Returns (Some (ErrClosedBecause e)), s', tr)
        /\ blockstore s' = st2
        /\ store_writes tr = [Store_PutMany toput]
        /\ exchange_calls tr = map Exchange_HasBlock (pre ++ [o])).
Proof.
  split.
  - intros o o' s s1 tr1 st2 x x' e Ho Hvalid Hguard Hput Hx Hann.
    unfold AddBlock. rewrite Ho, Hvalid.
    unfold bind at 1. rewrite Hguard. run.
    rewrite Hput. simpl. rewrite Hx, Hann. simpl.
    eexists. split; reflexivity.
  - intros bs bs2 toput pre post o s s1 s3 tr1 tr3 st2 x x' e
      Hall Hval Hchoose Hput Hsplit Hpre Hx Hann.
    subst toput. unfold AddBlocks. rewrite Hall, Hval.
    unfold bind at 1. rewrite Hchoose.
    unfold putAndAnnounce. run. rewrite Hput. simpl.
    rewrite (announceAll_first_failure pre post o _ s3 tr3 x x' e Hpre Hx Hann).
    do 2 eexists. split; [reflexivity|].
    apply chooseToput_frame in Hchoose as (_ & _ & Hw1 & He1).
    pose proof (announceAll_frame _ _ _ _ _ Hpre) as (Hb3 & _ & Hs3).
    pose proof (announceAll_success _ _ _ _ Hpre) as He3.
    split; [exact Hb3|]. split.
    + unfold store_writes in *. rewrite filter_app_eq, Hw1. simpl.
      rewrite filter_app_eq. f_equal.
      assert (Hnone : List.filter is_store_write tr3 = []).
      { clear -Hs3. unfold store_calls in Hs3.
        induction tr3 as [|ev tr IH]; [reflexivity|].
        simpl in *. destruct ev; simpl in *; try discriminate; auto. }
      rewrite Hnone. reflexivity.
    + unfold exchange_calls in *. rewrite filter_app_eq, He1. simpl.
      rewrite filter_app_eq, He3. simpl. now rewrite map_app.
Qed.

(** ** Batched read *)

Lemma sent_app (tr1 tr2 : trace) : sent (tr1 ++ tr2) = sent tr1 ++ sent tr2.
Proof.
  induction tr1 as [|ev tr1 IH]; [reflexivity|].
  destruct ev; simpl; rewrite ?IH; reflexivity.
Qed.

Lemma exchange_calls_app (tr1 tr2 : trace) :
  exchange_calls (tr1 ++ tr2) = exchange_calls tr1 ++ exchange_calls tr2.
Proof. apply List.filter_app. Qed.

(** The validation loop only logs. *)
Lemma logUnsafe_run (ks2 : list Cid) (s : service) :
  exists tr : trace,
    logUnsafe ks2 s = (Returns tt, s, tr)
    /\ store_calls tr = [] /\ exchange_calls tr = [] /\ sent tr = [].
Proof.
  induction ks2 as [|c rest (tr & Hrun & Hs & He & Hsent)]; simpl.
  - exists []. run. auto.
  - destruct (ValidateCid c) as [err|].
    + exists (Log_UnsafeCid c err :: tr). run. rewrite Hrun. auto.
    + exists tr. auto.
Qed.

(** The local scan returns, and it leaves the exchange alone. *)
Lemma scanLocal_frame (ctx : Context) (mapping : gmap string Cid)
    (ks2 misses : list Cid) (n : nat) (s s' : service)
    (r : outcome (option (list Cid * nat))) (tr : trace) :
  scanLocal ctx mapping ks2 misses n s = (r, s', tr) ->
  exchange s' = exchange s /\ exchange_calls tr = []
  /\ exists a, r = Returns a.
Proof.
  revert misses n s s' r tr.
  induction ks2 as [|c rest IH]; intros misses n s s' r tr Hrun.
  - run. inversion Hrun; subst. eauto.
  - simpl in Hrun. run.
    destruct (blockstore_Get (blockstore s) c) as [[hit|e] st1].
    + destruct (NewAutoDecryptedBlock (RawData hit) (mapping !! KeyString c))
        as [hit'|e].
      * unfold select_send in Hrun. destruct (Done ctx n); run.
        { inversion Hrun; subst. eauto. }
        destruct (scanLocal ctx mapping rest misses (n + 1) _)
          as [[r0 s0] tr0] eqn:Hrest.
        apply IH in Hrest. simpl in Hrest. inversion Hrun; subst. exact Hrest.
      * destruct (scanLocal ctx mapping rest misses n _)
          as [[r0 s0] tr0] eqn:Hrest.
        apply IH in Hrest. simpl in Hrest. inversion Hrun; subst. exact Hrest.
    + destruct (scanLocal ctx mapping rest (misses ++ [c]) n _)
        as [[r0 s0] tr0] eqn:Hrest.
      apply IH in Hrest. simpl in Hrest. inversion Hrun; subst. exact Hrest.
Qed.

(** When every key is found, the scan adds nothing to the misses. *)
Lemma scanLocal_all_found (ctx : Context) (mapping : gmap string Cid)
    (ks2 misses : list Cid) (n : nat) (s s' : service)
    (r : outcome (option (list Cid * nat))) (tr : trace) :
  foundLocally (blockstore s) ks2 = true ->
  scanLocal ctx mapping ks2 misses n s = (r, s', tr) ->
  r = Returns None \/ exists n', r = Returns (Some (misses, n')).
Proof.
  revert misses n s s' r tr.
  induction ks2 as [|c rest IH]; intros misses n s s' r tr Hall Hrun.
  - run. inversion Hrun; subst. eauto.
  - simpl in Hall, Hrun. run.
    destruct (blockstore_Get (blockstore s) c) as [[hit|e] st1];
      [|discriminate].
    destruct (NewAutoDecryptedBlock (RawData hit) (mapping !! KeyString c))
      as [hit'|e].
    + unfold select_send in Hrun. destruct (Done ctx n); run.
      { inversion Hrun; subst. eauto. }
      destruct (scanLocal ctx mapping rest misses (n + 1) _)
        as [[r0 s0] tr0] eqn:Hrest.
      apply IH in Hrest; [|exact Hall]. inversion Hrun; subst. exact Hrest.
    + destruct (scanLocal ctx mapping rest misses n _)
        as [[r0 s0] tr0] eqn:Hrest.
      apply IH in Hrest; [|exact Hall]. inversion Hrun; subst. exact Hrest.
Qed.

(** C9 — every key of the request is found by the local scan: the task
    closes the output stream and the exchange is never called. *)
Theorem all_local_never_consults_exchange
    (ctx : Context) (ks : list Cid) (s : service) :
  foundLocally (blockstore s) (publicKeys ks) = true ->
  exists (s' : service) (tr0 : trace),
    GetBlocks ctx ks s = (Returns tt, s', tr0 ++ [Close_out])
    /\ exchange_calls (tr0 ++ [Close_out]) = []
    /\ exchange s' = exchange s.
Proof.
  intros Hall. unfold GetBlocks, getBlocks, getBlocks_task, defer_close_out.
  destruct (logUnsafe_run (publicKeys ks) s) as (tr1 & Hlog & _ & He1 & _).
  unfold bind at 1. rewrite Hlog.
  unfold bind at 1.
  destruct (scanLocal ctx (buildMapping ks) (publicKeys ks) [] 0 s)
    as [[r s1] tr2] eqn:Hscan.
  pose proof (scanLocal_frame _ _ _ _ _ _ _ _ _ Hscan) as (Hx & He2 & _).
  destruct (scanLocal_all_found _ _ _ _ _ _ _ _ _ Hall Hscan)
    as [->|[n' ->]]; run.
  - exists s1, (tr1 ++ tr2).
    split; [f_equal; now rewrite ?app_nil_r, ?app_assoc|].
    split; [|exact Hx].
    rewrite !exchange_calls_app, He1, He2. reflexivity.
  - exists s1, (tr1 ++ tr2).
    split; [f_equal; now rewrite ?app_nil_r, ?app_assoc|].
    split; [|exact Hx].
    rewrite !exchange_calls_app, He1, He2. reflexivity.
Qed.

(** A scan that meets a miss and is not cancelled at any of the sends it
    attempts ends with a miss list that is not empty. *)
Lemma scanLocal_miss (ctx : Context) (mapping : gmap string Cid)
    (ks2 misses : list Cid) (n : nat) (s s' : service)
    (r : outcome (option (list Cid * nat))) (tr : trace) :
  (forall i, n <= i -> i < n + localHits mapping (blockstore s) ks2 ->
             Done ctx i = false) ->
  foundLocally (blockstore s) ks2 = false \/ misses <> [] ->
  scanLocal ctx mapping ks2 misses n s = (r, s', tr) ->
  exists misses' n', r = Returns (Some (misses', n')) /\ misses' <> [].
Proof.
  revert misses n s s' r tr.
  induction ks2 as [|c rest IH]; intros misses n s s' r tr Hlive Hmiss Hrun.
  - run. inversion Hrun; subst.
    destruct Hmiss as [Hmiss|Hmiss]; [discriminate|eauto].
  - simpl in Hlive, Hmiss, Hrun. run.
    destruct (blockstore_Get (blockstore s) c) as [[hit|e] st1].
    + destruct (NewAutoDecryptedBlock (RawData hit) (mapping !! KeyString c))
        as [hit'|e].
      * unfold select_send in Hrun.
        rewrite (Hlive n) in Hrun by lia. run.
        destruct (scanLocal ctx mapping rest misses (n + 1) _)
          as [[r0 s0] tr0] eqn:Hrest.
        apply IH in Hrest; [|simpl; intros i ? ?; apply Hlive; lia
                            |exact Hmiss].
        inversion Hrun; subst. exact Hrest.
      * destruct (scanLocal ctx mapping rest misses n _)
          as [[r0 s0] tr0] eqn:Hrest.
        apply IH in Hrest; [|exact Hlive|exact Hmiss].
        inversion Hrun; subst. exact Hrest.
    + destruct (scanLocal ctx mapping rest (misses ++ [c]) n _)
        as [[r0 s0] tr0] eqn:Hrest.
      apply IH in Hrest.
      * inversion Hrun; subst. exact Hrest.
      * exact Hlive.
      * right. now destruct misses.
Qed.

(** [GetBlock] on a service without exchange returns. *)
Lemma GetBlock_offline_returns (ctx : Context) (c : Cid) (s : service) :
  exchange s = None ->
  exists (r : result Block) (s' : service) (tr : trace),
    GetBlock ctx c s = (Returns r, s', tr).
Proof.
  intros Hnil. unfold GetBlock, getBlock.
  destruct (ValidateCid (ToPublic c)); run;
    [do 3 eexists; reflexivity|].
  destruct (blockstore_Get (blockstore s) (ToPublic c)) as [[blk|e] st1];
    simpl; [do 3 eexists; reflexivity|].
  rewrite Hnil. simpl. rewrite andb_false_r.
  destruct (bool_decide (e = blockstore_ErrNotFound));
    do 3 eexists; reflexivity.
Qed.

(** C3 (as amended) — a service built with a nil exchange, a key list with
    a key that the local scan misses, and a context that is not cancelled
    at any send of a local hit (what it does at later positions does not
    matter): the background task calls [GetBlocks] on the nil fetcher and
    panics, after closing the stream and without any call on an exchange;
    [GetBlock] on the same service returns. *)
Theorem nil_exchange_batched_miss_panics
    (ctx : Context) (ks : list Cid) (s : service) :
  exchange s = None ->
  foundLocally (blockstore s) (publicKeys ks) = false ->
  (forall i,
      i < localHits (buildMapping ks) (blockstore s) (publicKeys ks) ->
      Done ctx i = false) ->
  (exists (s' : service) (tr0 : trace),
      GetBlocks ctx ks s = (Panics, s', tr0 ++ [Close_out])
      /\ exchange_calls (tr0 ++ [Close_out]) = [])
  /\ (forall c : Cid,
      exists (r : result Block) (s' : service) (tr : trace),
        GetBlock ctx c s = (Returns r, s', tr)).
Proof.
  intros Hnil Hmiss Hlive.
  split; [|intros c; now apply GetBlock_offline_returns].
  unfold GetBlocks, getBlocks, getBlocks_task, defer_close_out.
  destruct (logUnsafe_run (publicKeys ks) s) as (tr1 & Hlog & _ & He1 & _).
  unfold bind at 1. rewrite Hlog.
  unfold bind at 1.
  destruct (scanLocal ctx (buildMapping ks) (publicKeys ks) [] 0 s)
    as [[r s1] tr2] eqn:Hscan.
  pose proof (scanLocal_frame _ _ _ _ _ _ _ _ _ Hscan) as (Hx & He2 & _).
  assert (Hlive0 : forall i, 0 <= i ->
             i < 0 + localHits (buildMapping ks) (blockstore s)
                       (publicKeys ks) ->
             Done ctx i = false) by (intros i _ Hi; now apply Hlive).
  destruct (scanLocal_miss _ _ _ _ _ _ _ _ _ Hlive0 (or_introl Hmiss) Hscan)
    as (misses' & n' & -> & Hne).
  destruct misses' as [|m misses']; [congruence|]. run.
  rewrite Hx, Hnil. simpl.
  exists s1, (tr1 ++ tr2).
  split; [f_equal; now rewrite ?app_nil_r, ?app_assoc|].
  rewrite !exchange_calls_app, He1, He2. reflexivity.
Qed.

(** *** The reverse mapping *)

Lemma foldl_mapping_lookup (ks : list Cid) (m0 : gmap string Cid)
    (k : string) (c : Cid) :
  foldl (fun m c => <[KeyString (ToPublic c) := c]> m) m0 ks !! k = Some c ->
  m0 !! k = Some c \/ (In c ks /\ KeyString (ToPublic c) = k).
Proof.
  revert m0. induction ks as [|a ks IH]; intros m0 Hlook; simpl in *.
  - now left.
  - apply IH in Hlook as [Hlook|[Hin Hkey]].
    + apply lookup_insert_Some in Hlook as [[<- <-]|[_ Hlook]]; auto.
    + auto.
Qed.

(** Every entry of [mapping] is a requested key, filed under the key
    string of its Public Form. *)
Lemma buildMapping_lookup (ks : list Cid) (k : string) (c : Cid) :
  buildMapping ks !! k = Some c -> In c ks /\ KeyString (ToPublic c) = k.
Proof.
  intros Hlook. apply foldl_mapping_lookup in Hlook as [Hlook|Hlook].
  - rewrite lookup_empty in Hlook. discriminate.
  - exact Hlook.
Qed.

Lemma foldl_mapping_is_Some (ks : list Cid) (m0 : gmap string Cid)
    (k : string) :
  is_Some (m0 !! k) \/ In k (map KeyString (publicKeys ks)) ->
  is_Some (foldl (fun m c => <[KeyString (ToPublic c) := c]> m) m0 ks !! k).
Proof.
  revert m0. induction ks as [|a ks IH]; intros m0 Hk; simpl in *.
  - destruct Hk as [Hk|[]]. exact Hk.
  - apply IH. destruct Hk as [Hk|[Hk|Hk]].
    + left. apply lookup_insert_is_Some'. now right.
    + left. apply lookup_insert_is_Some'. now left.
    + now right.
Qed.

(** Every normalised key has an entry. *)
Lemma buildMapping_is_Some (ks : list Cid) (k : string) :
  In k (map KeyString (publicKeys ks)) -> is_Some (buildMapping ks !! k).
Proof. intros Hk. apply foldl_mapping_is_Some. now right. Qed.

(** *** What the two loops send *)

Local Abbreviation sentFor mapping :=
  (fun (k : string) (b : Block) =>
     exists c : Cid, mapping !! k = Some c /\ projectedFor c b).

(** The local scan sends one block for each key it hits; hits and misses
    come from different positions of [ks2]. *)
Lemma scanLocal_sent (ctx : Context) (mapping : gmap string Cid)
    (ks2 misses : list Cid) (n : nat) (s s' : service)
    (r : outcome (option (list Cid * nat))) (tr : trace) :
  Forall (fun c => is_Some (mapping !! KeyString c)) ks2 ->
  scanLocal ctx mapping ks2 misses n s = (r, s', tr) ->
  exists (hs : list string) (ms : list Cid),
    Forall2 (sentFor mapping) hs (sent tr)
    /\ hs ++ map KeyString ms ⊆+ map KeyString ks2
    /\ (forall misses' n',
          r = Returns (Some (misses', n')) -> misses' = misses ++ ms).
Proof.
  revert misses n s s' r tr.
  induction ks2 as [|c rest IH]; intros misses n s s' r tr Hmap Hrun.
  - run. inversion Hrun; subst. exists [], []. simpl.
    split; [constructor|]. split; [constructor|].
    intros misses' n' Heq. inversion Heq. now rewrite app_nil_r.
  - apply Forall_cons in Hmap as [[c0 Hc0] Hmap].
    simpl in Hrun. run.
    destruct (blockstore_Get (blockstore s) c) as [[hit|e] st1].
    + rewrite Hc0 in Hrun.
      destruct (NewAutoDecryptedBlock (RawData hit) (Some c0))
        as [hit'|e] eqn:Hproj.
      * unfold select_send in Hrun. destruct (Done ctx n); run.
        { inversion Hrun; subst. exists [], []. simpl.
          split; [constructor|]. split; [apply submseteq_nil_l|].
          intros misses' n' Heq. discriminate. }
        destruct (scanLocal ctx mapping rest misses (n + 1) _)
          as [[r0 s0] tr0] eqn:Hrest.
        apply IH in Hrest as (hs & ms & Hsent & Hsub & Hmiss); [|exact Hmap].
        inversion Hrun; subst. exists (KeyString c :: hs), ms. simpl.
        split; [|split; [now constructor|exact Hmiss]].
        constructor; [|exact Hsent]. exists c0. split; [exact Hc0|].
        now exists (RawData hit).
      * destruct (scanLocal ctx mapping rest misses n _)
          as [[r0 s0] tr0] eqn:Hrest.
        apply IH in Hrest as (hs & ms & Hsent & Hsub & Hmiss); [|exact Hmap].
        inversion Hrun; subst. exists hs, ms. simpl.
        split; [exact Hsent|]. split; [now constructor|exact Hmiss].
    + destruct (scanLocal ctx mapping rest (misses ++ [c]) n _)
        as [[r0 s0] tr0] eqn:Hrest.
      apply IH in Hrest as (hs & ms & Hsent & Hsub & Hmiss); [|exact Hmap].
      inversion Hrun; subst. exists hs, (c :: ms). simpl.
      split; [exact Hsent|]. split.
      * rewrite <- Permutation_middle. now constructor.
      * intros misses' n' Heq. rewrite (Hmiss _ _ Heq).
        now rewrite <- app_assoc.
Qed.

(** The loop over the exchange's channel sends at most one block for each
    block it receives. *)
Lemma forwardRemote_sent (ctx : Context) (mapping : gmap string Cid)
    (rblocks : list Block) (n : nat) (s s' : service)
    (r : outcome unit) (tr : trace) :
  Forall (fun b => is_Some (mapping !! KeyString (Block_Cid b))) rblocks ->
  forwardRemote ctx mapping rblocks n s = (r, s', tr) ->
  exists rs : list string,
    Forall2 (sentFor mapping) rs (sent tr)
    /\ rs ⊆+ map (fun b => KeyString (Block_Cid b)) rblocks.
Proof.
  revert n s s' r tr.
  induction rblocks as [|b rest IH]; intros n s s' r tr Hmap Hrun.
  - run. inversion Hrun; subst. exists []. split; constructor.
  - apply Forall_cons in Hmap as [[c0 Hc0] Hmap].
    simpl in Hrun. rewrite Hc0 in Hrun.
    destruct (NewAutoDecryptedBlock (RawData b) (Some c0))
      as [b'|e] eqn:Hproj.
    + unfold select_send in Hrun. destruct (Done ctx n); run.
      { inversion Hrun; subst. exists []. simpl.
        split; [constructor|apply submseteq_nil_l]. }
      destruct (forwardRemote ctx mapping rest (n + 1) _)
        as [[r0 s0] tr0] eqn:Hrest.
      apply IH in Hrest as (rs & Hsent & Hsub); [|exact Hmap].
      inversion Hrun; subst. exists (KeyString (Block_Cid b) :: rs). simpl.
      split; [|now constructor].
      constructor; [|exact Hsent]. exists c0. split; [exact Hc0|].
      now exists (RawData b).
    + apply IH in Hrun as (rs & Hsent & Hsub); [|exact Hmap].
      exists rs. split; [exact Hsent|]. simpl. now constructor.
Qed.

(** Distinct key strings stand for distinct requested keys. *)
Lemma sent_keys_requested (ks : list Cid) (kl : list string)
    (bl : list Block) :
  NoDup kl ->
  Forall2 (sentFor (buildMapping ks)) kl bl ->
  exists cs : list Cid,
    NoDup cs /\ (forall c, In c cs -> In c ks)
    /\ Forall2 projectedFor cs bl
    /\ Forall2 (fun k c => buildMapping ks !! k = Some c) kl cs.
Proof.
  intros Hnd Hsent. induction Hsent as [|k b kl bl (c & Hc & Hproj) _ IH].
  - exists []. repeat split; try constructor. intros c [].
  - apply NoDup_cons in Hnd as [Hk Hnd].
    destruct (IH Hnd) as (cs & Hcs & Hin & Hprojs & Hkeys).
    exists (c :: cs). split; [|split; [|split]].
    + apply NoDup_cons. split; [|exact Hcs].
      intros Hc_in. apply Hk.
      apply list_elem_of_In in Hc_in.
      clear -Hkeys Hc Hc_in.
      induction Hkeys as [|k' c' kl cs Hk' _ IHk]; [destruct Hc_in|].
      destruct Hc_in as [->|Hc_in].
      * apply buildMapping_lookup in Hc as [_ <-].
        apply buildMapping_lookup in Hk' as [_ <-]. now left.
      * right. now apply IHk.
    + intros c' [<-|Hc']; [|now apply Hin].
      now apply buildMapping_lookup in Hc.
    + now constructor.
    + now constructor.
Qed.

Lemma NoDup_of_submseteq (l k : list string) : l ⊆+ k -> NoDup k -> NoDup l.
Proof.
  intros [k' Hperm]%submseteq_Permutation Hnd.
  rewrite Hperm in Hnd. now apply NoDup_app in Hnd as [Hnd _].
Qed.


(** *** Which keys the scan looks up *)

Lemma store_calls_app (tr1 tr2 : trace) :
  store_calls (tr1 ++ tr2) = store_calls tr1 ++ store_calls tr2.
Proof. apply List.filter_app. Qed.

(** Without cancellation the scan asks the store for every key it is
    given, in order. *)
Lemma scanLocal_queries_all (ctx : Context) (mapping : gmap string Cid)
    (ks2 misses : list Cid) (n : nat) (s s' : service)
    (r : outcome (option (list Cid * nat))) (tr : trace) :
  (forall i, Done ctx i = false) ->
  scanLocal ctx mapping ks2 misses n s = (r, s', tr) ->
  store_calls tr = map Store_Get ks2.
Proof.
  intros Hlive. revert misses n s s' r tr.
  induction ks2 as [|c rest IH]; intros misses n s s' r tr Hrun.
  - run. inversion Hrun; subst. reflexivity.
  - simpl in Hrun. run.
    destruct (blockstore_Get (blockstore s) c) as [[hit|e] st1].
    + destruct (NewAutoDecryptedBlock (RawData hit) (mapping !! KeyString c))
        as [hit'|e].
      * unfold select_send in Hrun. rewrite Hlive in Hrun. run.
        destruct (scanLocal ctx mapping rest misses (n + 1) _)
          as [[r0 s0] tr0] eqn:Hrest.
        apply IH in Hrest. inversion Hrun; subst. simpl. now rewrite Hrest.
      * destruct (scanLocal ctx mapping rest misses n _)
          as [[r0 s0] tr0] eqn:Hrest.
        apply IH in Hrest. inversion Hrun; subst. simpl. now rewrite Hrest.
    + destruct (scanLocal ctx mapping rest (misses ++ [c]) n _)
        as [[r0 s0] tr0] eqn:Hrest.
      apply IH in Hrest. inversion Hrun; subst. simpl. now rewrite Hrest.
Qed.

(** Forwarding the exchange's blocks makes no call on the store. *)
Lemma forwardRemote_no_store_calls (ctx : Context)
    (mapping : gmap string Cid) (rblocks : list Block) (n : nat)
    (s s' : service) (r : outcome unit) (tr : trace) :
  forwardRemote ctx mapping rblocks n s = (r, s', tr) ->
  store_calls tr = [].
Proof.
  revert n s s' r tr.
  induction rblocks as [|b rest IH]; intros n s s' r tr Hrun.
  - run. inversion Hrun; subst. reflexivity.
  - simpl in Hrun.
    destruct (NewAutoDecryptedBlock (RawData b)
                (mapping !! KeyString (Block_Cid b))) as [b'|e].
    + unfold select_send in Hrun. destruct (Done ctx n); run.
      { inversion Hrun; subst. reflexivity. }
      destruct (forwardRemote ctx mapping rest (n + 1) _)
        as [[r0 s0] tr0] eqn:Hrest.
      apply IH in Hrest. inversion Hrun; subst. simpl. exact Hrest.
    + now apply IH in Hrun.
Qed.

(** With a context that is never cancelled, the batched read asks the
    store for the Public Form of every key of the request, whatever
    [ValidateCid] said about it. *)
Lemma getBlocks_queries_every_key (ks : list Cid) (s : service) :
  store_calls (snd (getBlocks Background ks s))
  = map Store_Get (publicKeys ks).
Proof.
  unfold getBlocks, getBlocks_task, defer_close_out.
  destruct (logUnsafe_run (publicKeys ks) s) as (tr1 & Hlog & Hs1 & _ & _).
  unfold bind at 1. rewrite Hlog.
  unfold bind at 1.
  destruct (scanLocal Background (buildMapping ks) (publicKeys ks) [] 0 s)
    as [[r1 s1] tr2] eqn:Hscan.
  pose proof (scanLocal_frame _ _ _ _ _ _ _ _ _ Hscan) as (_ & _ & a & ->).
  assert (Hlive : forall i, Done Background i = false) by reflexivity.
  pose proof (scanLocal_queries_all _ _ _ _ _ _ _ _ _ Hlive Hscan) as Hs2.
  assert (Hlocal : forall tr3 : trace,
             store_calls tr3 = [] ->
             store_calls (tr1 ++ (tr2 ++ tr3) ++ [Close_out])
             = map Store_Get (publicKeys ks)).
  { intros tr3 Htr3. rewrite !store_calls_app, Hs1, Hs2, Htr3. simpl.
    now rewrite !app_nil_r. }
  destruct a as [[misses n]|]; [|run; now apply Hlocal].
  destruct (Nat.eqb (length misses) 0); [run; now apply Hlocal|].
  run. destruct (exchange s1) as [x|]; [|simpl; now apply Hlocal].
  destruct (exchange_GetBlocks x Background misses) as [[rblocks|e] x'];
    simpl; [|now apply Hlocal].
  destruct (forwardRemote Background (buildMapping ks) rblocks n _)
    as [[r3 s3] tr3] eqn:Hremote.
  apply forwardRemote_no_store_calls in Hremote. simpl.
  apply (Hlocal (Exchange_GetBlocks misses :: tr3)). exact Hremote.
Qed.

(** * Further properties of the service *)

(** ** Single-key read: hits, remote answers, and what it never does *)

(** X1 — a valid key that the store holds: [GetBlock] returns the stored
    payload projected for the caller's own identifier, after one [Get] on
    the Public Form and without any call on the exchange. *)
Theorem GetBlock_local_hit
    (ctx : Context) (c : Cid) (s : service) (blk : Block) (st' : BS) :
  ValidateCid (ToPublic c) = None ->
  blockstore_Get (blockstore s) (ToPublic c) = (Ok blk, st') ->
  exists tr : trace,
    GetBlock ctx c s
    = (Returns (NewAutoDecryptedBlock (RawData blk) (Some c)),
       {| blockstore := st'; exchange := exchange s;
          checkFirst := checkFirst s |}, tr)
    /\ store_calls tr = [Store_Get (ToPublic c)]
    /\ exchange_calls tr = [].
Proof.
  intros Hvalid Hget. unfold GetBlock, getBlock. rewrite Hvalid. run.
  rewrite Hget. simpl. eexists. repeat split; reflexivity.
Qed.

(** X2 — a valid key that the store misses and the exchange delivers: the
    exchange is asked once, for the Public Form; the fetched payload is
    projected for the caller's identifier; the store is not written. *)
Theorem GetBlock_remote_hit_not_stored
    (ctx : Context) (c : Cid) (s : service) (blk : Block)
    (st' : BS) (x x' : EX) :
  ValidateCid (ToPublic c) = None ->
  blockstore_Get (blockstore s) (ToPublic c)
  = (Err blockstore_ErrNotFound, st') ->
  exchange s = Some x ->
  exchange_GetBlock x ctx (ToPublic c) = (Ok blk, x') ->
  exists tr : trace,
    GetBlock ctx c s
    = (Returns (NewAutoDecryptedBlock (RawData blk) (Some c)),
       {| blockstore := st'; exchange := Some x';
          checkFirst := checkFirst s |}, tr)
    /\ store_calls tr = [Store_Get (ToPublic c)]
    /\ exchange_calls tr = [Exchange_GetBlock (ToPublic c)].
Proof.
  intros Hvalid Hget Hx Hfetch. unfold GetBlock, getBlock. rewrite Hvalid.
  run. rewrite Hget. simpl. rewrite Hx. simpl. rewrite Hfetch. simpl.
  eexists. repeat split; reflexivity.
Qed.

(** X3 — a valid key that the store misses and for which the exchange
    fails: the exchange's [blockstore.ErrNotFound] becomes the package's
    [ErrNotFound], every other error of the exchange is returned as it
    is. *)
Theorem GetBlock_remote_error
    (ctx : Context) (c : Cid) (s : service) (e : error)
    (st' : BS) (x x' : EX) :
  ValidateCid (ToPublic c) = None ->
  blockstore_Get (blockstore s) (ToPublic c)
  = (Err blockstore_ErrNotFound, st') ->
  exchange s = Some x ->
  exchange_GetBlock x ctx (ToPublic c) = (Err e, x') ->
  exists (s' : service) (tr : trace),
    GetBlock ctx c s
    = (Returns (Err (if bool_decide (e = blockstore_ErrNotFound)
                     then ErrNotFound else e)), s', tr)
    /\ store_writes tr = [].
Proof.
  intros Hvalid Hget Hx Hfetch. unfold GetBlock, getBlock. rewrite Hvalid.
  run. rewrite Hget. simpl. rewrite Hx. simpl. rewrite Hfetch. simpl.
  destruct (bool_decide (e = blockstore_ErrNotFound));
    do 2 eexists; split; reflexivity.
Qed.

(** X4 — whatever the key, the store and the exchange: [GetBlock] returns
    (a nil exchange included), never writes to the store, asks the store at
    most once and the exchange at most once. *)
Theorem GetBlock_returns_and_only_reads
    (ctx : Context) (c : Cid) (s : service) :
  exists (r : result Block) (s' : service) (tr : trace),
    GetBlock ctx c s = (Returns r, s', tr)
    /\ store_writes tr = []
    /\ length (store_calls tr) <= 1
    /\ length (exchange_calls tr) <= 1.
Proof.
  unfold GetBlock, getBlock.
  destruct (ValidateCid (ToPublic c)); run.
  { do 3 eexists. split; [reflexivity|]. simpl. auto. }
  destruct (blockstore_Get (blockstore s) (ToPublic c)) as [[blk|e] st1];
    simpl.
  { do 3 eexists. split; [reflexivity|]. simpl. auto. }
  destruct (bool_decide (e = blockstore_ErrNotFound)) eqn:He; simpl.
  - destruct (exchange s) as [x|]; simpl.
    + destruct (exchange_GetBlock x ctx (ToPublic c)) as [[blk|e'] x'];
        simpl.
      * do 3 eexists. split; [reflexivity|]. simpl. auto.
      * destruct (bool_decide (e' = blockstore_ErrNotFound));
          do 3 eexists; (split; [reflexivity|]); simpl; auto.
    + do 3 eexists. split; [reflexivity|]. simpl. auto.
  - do 3 eexists. split; [reflexivity|]. simpl. auto.
Qed.

(** ** Writes: the success path, the failing existence check, the nil
    exchange *)

(** Splits the goal on the innermost [match] again and again. *)
Ltac split_cases :=
  repeat (match goal with
          | |- context [match ?e with _ => _ end] =>
              lazymatch e with
              | context [match _ with _ => _ end] => fail
              | _ => destruct e eqn:?
              end
          end; simpl).

(** X5 — check-first mode, a valid block that the store does not hold,
    a store and an exchange that accept it: [AddBlock] succeeds, and
    what is written and announced, once each and in this order, is the
    block's Public Form. *)
Theorem AddBlock_new_block_stored_and_announced
    (o o' : Block) (s : service) (st1 st2 : BS) (x x' : EX) :
  Block_ToPublic o = Ok o' ->
  ValidateCid (Block_Cid o') = None ->
  checkFirst s = true ->
  blockstore_Has (blockstore s) (Block_Cid o') = ((false, None), st1) ->
  blockstore_Put st1 o' = (None, st2) ->
  exchange s = Some x ->
  exchange_HasBlock x o' = (None, x') ->
  AddBlock o s
  = (Returns None,
     {| blockstore := st2; exchange := Some x'; checkFirst := true |},
     [Store_Has (Block_Cid o'); Store_Put o';
      Log_Event "BlockService.BlockAdded" (Block_Cid o');
      Exchange_HasBlock o']).
Proof.
  intros Ho Hvalid Hcf Hhas Hput Hx Hann.
  unfold AddBlock, checkFirst_guard. rewrite Ho, Hvalid. run.
  rewrite Hcf. simpl. rewrite Hhas. simpl. rewrite Hput. simpl.
  rewrite Hx, Hann. simpl. rewrite Hcf. reflexivity.
Qed.

(** X6 — check-first mode and a store whose [Has] fails: [AddBlock]
    returns that error, whatever [Has] said about presence, and neither
    writes nor announces. *)
Theorem AddBlock_existence_check_error
    (o o' : Block) (s : service) (has : bool) (e : error) (st1 : BS) :
  Block_ToPublic o = Ok o' ->
  ValidateCid (Block_Cid o') = None ->
  checkFirst s = true ->
  blockstore_Has (blockstore s) (Block_Cid o') = ((has, Some e), st1) ->
  exists (s' : service) (tr : trace),
    AddBlock o s = (Returns (Some e), s', tr)
    /\ store_writes tr = [] /\ exchange_calls tr = [].
Proof.
  intros Ho Hvalid Hcf Hhas.
  unfold AddBlock, checkFirst_guard. rewrite Ho, Hvalid. run.
  rewrite Hcf. simpl. rewrite Hhas. simpl. rewrite orb_true_r. simpl.
  do 2 eexists. repeat split; reflexivity.
Qed.

(** X7 — a service without exchange and a valid block that passes the
    existence check: [AddBlock] writes the block to the store and then
    panics on the nil exchange; the write stays. *)
Theorem AddBlock_nil_exchange_panics_after_write
    (o o' : Block) (s s1 : service) (tr1 : trace) (st2 : BS) :
  Block_ToPublic o = Ok o' ->
  ValidateCid (Block_Cid o') = None ->
  checkFirst_guard (Block_Cid o') s = (Returns None, s1, tr1) ->
  blockstore_Put (blockstore s1) o' = (None, st2) ->
  exchange s1 = None ->
  AddBlock o s
  = (Panics,
     {| blockstore := st2; exchange := None; checkFirst := checkFirst s1 |},
     tr1 ++ [Store_Put o';
             Log_Event "BlockService.BlockAdded" (Block_Cid o')]).
Proof.
  intros Ho Hvalid Hguard Hput Hnil.
  unfold AddBlock. rewrite Ho, Hvalid.
  unfold bind at 1. rewrite Hguard. run.
  rewrite Hput. simpl. rewrite Hnil. reflexivity.
Qed.

(** X8 — whatever happens in [AddBlock]: it writes to the store at most
    once, and if it called the exchange at all then the Public Form of the
    block had been stored successfully before, the store is left as that
    write made it, and the call was the announcement of that same block. *)
Theorem AddBlock_announces_only_what_it_stored
    (o : Block) (s s' : service) (r : outcome (option error)) (tr : trace) :
  AddBlock o s = (r, s', tr) ->
  length (store_writes tr) <= 1
  /\ (exchange_calls tr <> [] ->
      exists (o' : Block) (st st2 : BS),
        Block_ToPublic o = Ok o'
        /\ blockstore_Put st o' = (None, st2)
        /\ blockstore s' = st2
        /\ store_writes tr = [Store_Put o']
        /\ exchange_calls tr = [Exchange_HasBlock o']).
Proof.
  unfold AddBlock, checkFirst_guard. run.
  split_cases;
    intros Hrun; inversion Hrun; subst;
    unfold store_writes, exchange_calls; simpl;
    (split; [lia|]); intros Hcalls; try congruence;
    do 3 eexists; repeat split; eauto.
Qed.

(** ** Batched write *)

Lemma toPublicAll_of_Forall2 (bs bs2 : list Block) :
  Forall2 (fun b b2 => publicOf b = Ok b2) bs bs2 -> toPublicAll bs = Ok bs2.
Proof.
  induction 1 as [|b b2 bs bs2 Hb _ IH]; simpl; [reflexivity|].
  now rewrite Hb, IH.
Qed.

Lemma validateAll_of_Forall (bs2 : list Block) :
  Forall (fun b2 => ValidateCid (Block_Cid b2) = None) bs2 ->
  validateAll bs2 = None.
Proof.
  induction 1 as [|b2 bs2 Hb _ IH]; simpl; [reflexivity|]. now rewrite Hb.
Qed.

(** The announcements made are those of a prefix of the list. *)
Lemma announceAll_prefix (toput : list Block) (s s' : service)
    (r : outcome (option error)) (tr : trace) :
  announceAll toput s = (r, s', tr) ->
  exists k : nat, exchange_calls tr = map Exchange_HasBlock (firstn k toput).
Proof.
  revert s s' r tr. induction toput as [|o rest IH]; intros s s' r tr Hrun.
  - run. inversion Hrun; subst. now exists 0.
  - simpl in Hrun. run.
    destruct (exchange s) as [x|] eqn:Hx.
    + destruct (exchange_HasBlock x o) as [[err|] x'] eqn:Hann; simpl in Hrun.
      * inversion Hrun; subst. now exists 1.
      * destruct (announceAll rest _) as [[r0 s0] tr0] eqn:Hrest.
        apply IH in Hrest as [k Hk]. inversion Hrun; subst.
        exists (S k). simpl. now rewrite Hk.
    + inversion Hrun; subst. now exists 0.
Qed.

(** With an exchange that, in the states it goes through, accepts every
    announcement, every block is announced. *)
Lemma announceAll_accepting (accepting : EX -> Prop) (toput : list Block)
    (s : service) (x0 : EX) :
  exchange s = Some x0 ->
  accepting x0 ->
  (forall (x : EX) (b : Block),
      accepting x ->
      fst (exchange_HasBlock x b) = None
      /\ accepting (snd (exchange_HasBlock x b))) ->
  exists (s' : service) (tr : trace),
    announceAll toput s = (Returns None, s', tr)
    /\ blockstore s' = blockstore s
    /\ store_calls tr = []
    /\ exchange_calls tr = map Exchange_HasBlock toput.
Proof.
  intros Hx Hx0 Hacc. revert s x0 Hx Hx0.
  induction toput as [|o rest IH]; intros s x0 Hx Hx0.
  - exists s, []. run. auto.
  - destruct (Hacc x0 o Hx0) as (Hnone & Hnext).
    destruct (exchange_HasBlock x0 o) as [herr x'] eqn:Hann.
    simpl in Hnone, Hnext. subst herr.
    destruct (IH {| blockstore := blockstore s; exchange := Some x';
                    checkFirst := checkFirst s |} x' eq_refl Hnext)
      as (s' & tr & Hrun & Hb & Hs & He).
    exists s', (Log_Event "BlockService.BlockAdded" (Block_Cid o)
                :: Exchange_HasBlock o :: tr).
    simpl. run. rewrite Hx, Hann. simpl. rewrite Hrun.
    repeat split; simpl; auto. now rewrite He.
Qed.

(** The existence checks ask [Has] once for every block, in order, and
    keep a sublist. *)
Lemma selectAbsent_sublist (bs2 acc toput : list Block) (s s' : service)
    (tr : trace) :
  selectAbsent bs2 acc s = (Returns (Ok toput), s', tr) ->
  exists sel : list Block,
    toput = acc ++ sel
    /\ sublist sel bs2
    /\ store_calls tr = map (fun b => Store_Has (Block_Cid b)) bs2.
Proof.
  revert acc s s' tr.
  induction bs2 as [|b rest IH]; intros acc s s' tr Hrun.
  - run. inversion Hrun; subst. exists []. rewrite app_nil_r.
    repeat split. constructor.
  - simpl in Hrun. run.
    destruct (blockstore_Has (blockstore s) (Block_Cid b)) as [[has err] st1].
    destruct err as [e|]; simpl in Hrun; [discriminate|].
    destruct has.
    + destruct (selectAbsent rest acc _) as [[r0 s0] tr0] eqn:Hrest.
      inversion Hrun; subst.
      apply IH in Hrest as (sel & Hsel & Hsub & Hcalls).
      exists sel. split; [exact Hsel|]. split; [now constructor|].
      simpl. now rewrite Hcalls.
    + destruct (selectAbsent rest (acc ++ [b]) _) as [[r0 s0] tr0] eqn:Hrest.
      inversion Hrun; subst.
      apply IH in Hrest as (sel & Hsel & Hsub & Hcalls).
      exists (b :: sel). split; [now rewrite Hsel, <- app_assoc|].
      split; [now constructor|]. simpl. now rewrite Hcalls.
Qed.

Lemma selectAbsent_allHeld (bs2 acc : list Block) (s : service) :
  allHeld (blockstore s) bs2 = true ->
  exists (s' : service) (tr : trace),
    selectAbsent bs2 acc s = (Returns (Ok acc), s', tr)
    /\ exchange s' = exchange s
    /\ store_writes tr = [] /\ exchange_calls tr = [].
Proof.
  revert s. induction bs2 as [|b rest IH]; intros s Hheld.
  - exists s, []. run. auto.
  - simpl in Hheld. simpl. run.
    destruct (blockstore_Has (blockstore s) (Block_Cid b))
      as [[[|] [e|]] st1]; try discriminate.
    destruct (IH {| blockstore := st1; exchange := exchange s;
                    checkFirst := checkFirst s |} Hheld)
      as (s' & tr & Hrun & Hx & Hw & He).
    exists s', (Store_Has (Block_Cid b) :: tr). rewrite Hrun.
    repeat split; auto.
Qed.

(** X9 — write-through mode, a batch whose Public Forms are all valid, a
    store that accepts the bulk write and an exchange that, in the states
    it goes through, accepts every announcement: [AddBlocks] succeeds, never asks [Has], writes the
    Public Forms with one [PutMany] and announces each of them once, in
    the order of the batch. *)
Theorem AddBlocks_write_through_stores_and_announces_all
    (accepting : EX -> Prop) (bs bs2 : list Block) (s : service)
    (st2 : BS) (x0 : EX) :
  checkFirst s = false ->
  Forall2 (fun b b2 => publicOf b = Ok b2) bs bs2 ->
  Forall (fun b2 => ValidateCid (Block_Cid b2) = None) bs2 ->
  blockstore_PutMany (blockstore s) bs2 = (None, st2) ->
  exchange s = Some x0 ->
  accepting x0 ->
  (forall (x : EX) (b : Block),
      accepting x ->
      fst (exchange_HasBlock x b) = None
      /\ accepting (snd (exchange_HasBlock x b))) ->
  exists (s' : service) (tr : trace),
    AddBlocks bs s = (Returns None, s', tr)
    /\ blockstore s' = st2
    /\ store_calls tr = [Store_PutMany bs2]
    /\ exchange_calls tr = map Exchange_HasBlock bs2.
Proof.
  intros Hcf Hpub Hvalid Hput Hx Hx0 Hacc.
  unfold AddBlocks, chooseToput, putAndAnnounce.
  rewrite (toPublicAll_of_Forall2 _ _ Hpub), (validateAll_of_Forall _ Hvalid).
  run. rewrite Hcf. simpl. rewrite Hput. simpl.
  destruct (announceAll_accepting accepting bs2
              {| blockstore := st2; exchange := exchange s;
                 checkFirst := checkFirst s |} x0 Hx Hx0 Hacc)
    as (s' & tr & Hrun & Hb & Hs & He).
  rewrite Hrun. exists s', (Store_PutMany bs2 :: tr).
  split; [reflexivity|]. split; [exact Hb|].
  unfold store_calls, exchange_calls in *. simpl. now rewrite Hs, He.
Qed.

(** X10 — check-first mode and a batch whose Public Forms are all valid:
    if [AddBlocks] reaches the bulk write, it has asked [Has] for every
    block of the batch, in order, and what it writes is a sublist of the
    Public Forms of the batch. *)
Theorem AddBlocks_check_first_writes_a_sublist
    (bs bs2 toput : list Block) (s s' : service)
    (r : outcome (option error)) (tr : trace) :
  checkFirst s = true ->
  Forall2 (fun b b2 => publicOf b = Ok b2) bs bs2 ->
  Forall (fun b2 => ValidateCid (Block_Cid b2) = None) bs2 ->
  AddBlocks bs s = (r, s', tr) ->
  In (Store_PutMany toput) tr ->
  sublist toput bs2
  /\ store_calls tr
     = map (fun b => Store_Has (Block_Cid b)) bs2 ++ [Store_PutMany toput].
Proof.
  intros Hcf Hpub Hvalid Hrun Hin.
  unfold AddBlocks, chooseToput, putAndAnnounce in Hrun.
  rewrite (toPublicAll_of_Forall2 _ _ Hpub),
    (validateAll_of_Forall _ Hvalid) in Hrun.
  unfold bind at 1 2, get_checkFirst in Hrun. rewrite Hcf in Hrun.
  destruct (selectAbsent bs2 [] s) as [[r1 s1] tr1] eqn:Hsel.
  pose proof (selectAbsent_frame _ _ _ _ _ _ Hsel) as (_ & _ & Hw1 & _).
  assert (Hno : forall tp, ~ In (Store_PutMany tp) tr1).
  { intros tp Htp. clear -Hw1 Htp. unfold store_writes in Hw1.
    induction tr1 as [|ev tr1 IH]; [destruct Htp|].
    simpl in Hw1. destruct Htp as [->|Htp]; [discriminate|].
    destruct (is_store_write ev); [discriminate|auto]. }
  destruct r1 as [[sel|e]|]; simpl in Hrun.
  - apply selectAbsent_sublist in Hsel as (sel' & Hsel' & Hsub & Hcalls).
    simpl in Hsel'. subst sel'.
    unfold bind at 1, store_PutMany, on_store in Hrun. simpl in Hrun.
    destruct (blockstore_PutMany (blockstore s1) sel) as [perr st2].
    assert (Htail : exists (r3 : outcome (option error)) (s3 : service)
                           (tr3 : trace),
               (r, s', tr) = (r3, s3, tr1 ++ Store_PutMany sel :: tr3)
               /\ store_calls tr3 = []).
    { destruct perr as [e|].
      - run. inversion Hrun; subst.
        do 3 eexists. split; reflexivity.
      - destruct (announceAll sel _) as [[r3 s3] tr3] eqn:Hann.
        apply announceAll_frame in Hann as (_ & _ & Hs3).
        inversion Hrun; subst.
        do 3 eexists. split; [reflexivity|exact Hs3]. }
    destruct Htail as (r3 & s3 & tr3 & Heq & Hs3). inversion Heq; subst.
    apply in_app_or in Hin as [Hin|[Hin|Hin]].
    + now apply Hno in Hin.
    + inversion Hin; subst. split; [exact Hsub|].
      rewrite store_calls_app, Hcalls. simpl. now rewrite Hs3.
    + exfalso. clear -Hs3 Hin. unfold store_calls in Hs3.
      induction tr3 as [|ev tr3 IH]; [destruct Hin|].
      simpl in Hs3. destruct Hin as [->|Hin]; [discriminate|].
      destruct (is_store_call ev); [discriminate|auto].
  - run. inversion Hrun; subst. rewrite app_nil_r in Hin.
    now apply Hno in Hin.
  - inversion Hrun; subst. now apply Hno in Hin.
Qed.

Lemma no_store_calls_no_writes (tr : trace) :
  store_calls tr = [] -> store_writes tr = [].
Proof.
  unfold store_calls, store_writes.
  induction tr as [|ev tr IH]; [reflexivity|].
  simpl. destruct ev; simpl; try discriminate; auto.
Qed.

(** X11 — whatever happens in [AddBlocks]: it writes to the store at most
    once, and if it called the exchange at all then a bulk write had
    succeeded before, the store is left as that write made it, and the
    calls are the announcements of a prefix of the blocks written. *)
Theorem AddBlocks_announces_only_what_it_stored
    (bs : list Block) (s s' : service) (r : outcome (option error))
    (tr : trace) :
  AddBlocks bs s = (r, s', tr) ->
  length (store_writes tr) <= 1
  /\ (exchange_calls tr <> [] ->
      exists (toput : list Block) (st st2 : BS) (k : nat),
        blockstore_PutMany st toput = (None, st2)
        /\ blockstore s' = st2
        /\ store_writes tr = [Store_PutMany toput]
        /\ exchange_calls tr = map Exchange_HasBlock (firstn k toput)).
Proof.
  unfold AddBlocks, putAndAnnounce.
  destruct (toPublicAll bs) as [bs2|e].
  2:{ intros Hrun. inversion Hrun; subst. simpl. split; [lia|congruence]. }
  destruct (validateAll bs2) as [e|].
  { intros Hrun. inversion Hrun; subst. simpl. split; [lia|congruence]. }
  unfold bind at 1.
  destruct (chooseToput bs2 s) as [[r1 s1] tr1] eqn:Hch.
  apply chooseToput_frame in Hch as (_ & _ & Hw1 & He1).
  destruct r1 as [[toput|e]|].
  - unfold bind at 1, store_PutMany, on_store. simpl.
    destruct (blockstore_PutMany (blockstore s1) toput) as [[e|] st2] eqn:Hput.
    + run. intros Hrun. inversion Hrun; subst.
      unfold store_writes, exchange_calls in *.
      rewrite !filter_app_eq, Hw1, He1. simpl. split; [lia|congruence].
    + destruct (announceAll toput _) as [[r3 s3] tr3] eqn:Hann.
      pose proof (announceAll_frame _ _ _ _ _ Hann) as (Hb3 & _ & Hs3).
      pose proof (announceAll_prefix _ _ _ _ _ Hann) as [k Hk].
      apply no_store_calls_no_writes in Hs3.
      intros Hrun. inversion Hrun; subst.
      unfold store_writes, exchange_calls in *.
      rewrite !filter_app_eq, Hw1, He1. simpl. rewrite Hs3, Hk.
      split; [simpl; lia|]. intros _.
      exists toput, (blockstore s1), st2, k. auto.
  - run. intros Hrun. inversion Hrun; subst. rewrite app_nil_r.
    rewrite Hw1, He1. simpl. split; [lia|congruence].
  - intros Hrun. inversion Hrun; subst.
    rewrite Hw1, He1. simpl. split; [lia|congruence].
Qed.

(** X12 — check-first mode and a batch of valid blocks that the store
    already holds, the empty batch included: [AddBlocks] still issues one
    bulk write, of no blocks, returns its answer and announces nothing; it
    does so on a service without exchange too. *)
Theorem AddBlocks_all_held_writes_nothing
    (bs bs2 : list Block) (s : service) :
  checkFirst s = true ->
  Forall2 (fun b b2 => publicOf b = Ok b2) bs bs2 ->
  Forall (fun b2 => ValidateCid (Block_Cid b2) = None) bs2 ->
  allHeld (blockstore s) bs2 = true ->
  exists (st1 st2 : BS) (perr : option error) (s' : service) (tr : trace),
    AddBlocks bs s = (Returns perr, s', tr)
    /\ blockstore_PutMany st1 [] = (perr, st2)
    /\ blockstore s' = st2
    /\ store_writes tr = [Store_PutMany []]
    /\ exchange_calls tr = [].
Proof.
  intros Hcf Hpub Hvalid Hheld.
  unfold AddBlocks, chooseToput, putAndAnnounce.
  rewrite (toPublicAll_of_Forall2 _ _ Hpub), (validateAll_of_Forall _ Hvalid).
  unfold bind at 1 2, get_checkFirst. rewrite Hcf.
  destruct (selectAbsent_allHeld bs2 [] s Hheld)
    as (s1 & tr1 & Hsel & _ & Hw1 & He1).
  rewrite Hsel. simpl. run.
  destruct (blockstore_PutMany (blockstore s1) []) as [perr st2] eqn:Hput.
  exists (blockstore s1), st2, perr.
  destruct perr as [e|]; simpl;
    (do 2 eexists; split; [reflexivity|]; split; [exact Hput|];
     split; [reflexivity|];
     unfold store_writes, exchange_calls in *;
     rewrite !filter_app_eq, Hw1, He1; split; reflexivity).
Qed.

(** ** Deleting and closing *)

(** X13 — [DeleteBlock] asks the store, once, to delete the Public Form of
    the identifier and returns the store's answer; it makes no call on the
    exchange, so it also works without one; the deletion is logged exactly
    when it succeeded. *)
Theorem DeleteBlock_is_local (c : Cid) (s : service) :
  exists tr : trace,
    DeleteBlock c s
    = (Returns (fst (blockstore_DeleteBlock (blockstore s) (ToPublic c))),
       {| blockstore := snd (blockstore_DeleteBlock (blockstore s)
                               (ToPublic c));
          exchange := exchange s; checkFirst := checkFirst s |}, tr)
    /\ store_calls tr = [Store_DeleteBlock (ToPublic c)]
    /\ exchange_calls tr = []
    /\ (In (Log_Event "BlockService.BlockDeleted" c) tr
        <-> fst (blockstore_DeleteBlock (blockstore s) (ToPublic c)) = None).
Proof.
  unfold DeleteBlock. run.
  destruct (blockstore_DeleteBlock (blockstore s) (ToPublic c))
    as [[e|] st1]; simpl; eexists; (split; [reflexivity|]);
    (split; [reflexivity|]); (split; [reflexivity|]); simpl.
  - split; [intros [Hev|[]]; discriminate|discriminate].
  - split; auto.
Qed.

(** X14 — [Close] closes the exchange and returns its answer without any
    call on the store; on a service without exchange it panics. *)
Theorem Close_needs_an_exchange (s : service) :
  (exchange s = None -> exists tr : trace, Close s = (Panics, s, tr))
  /\ (forall x : EX,
      exchange s = Some x ->
      exists tr : trace,
        Close s
        = (Returns (fst (exchange_Close x)),
           {| blockstore := blockstore s;
              exchange := Some (snd (exchange_Close x));
              checkFirst := checkFirst s |}, tr)
        /\ store_calls tr = []
        /\ exchange_calls tr = [Exchange_Close]).
Proof.
  unfold Close. run. split.
  - intros ->. eexists. reflexivity.
  - intros x ->. destruct (exchange_Close x) as [err x']. simpl.
    eexists. repeat split; reflexivity.
Qed.

(** ** Batched read: the shape of every run *)

Lemma logUnsafe_no_close (ks2 : list Cid) (s s' : service)
    (r : outcome unit) (tr : trace) :
  logUnsafe ks2 s = (r, s', tr) -> ~ In Close_out tr.
Proof.
  revert tr. induction ks2 as [|c rest IH]; intros tr Hrun; simpl in Hrun.
  - run. inversion Hrun; subst. intros [].
  - destruct (ValidateCid c) as [err|]; [|now apply IH].
    run. destruct (logUnsafe rest s) as [[r0 s0] tr0] eqn:Hrest.
    inversion Hrun; subst. intros [Hev|Hin]; [discriminate|].
    now apply (IH tr0).
Qed.

(** What one run of the local scan accounts for: the store is asked for a
    prefix of the keys, the misses are a sublist of them, the counter of
    sends is kept, and no send is made at a cancelled position. *)
Lemma scanLocal_account (ctx : Context) (mapping : gmap string Cid)
    (ks2 misses : list Cid) (n : nat) (s s' : service)
    (r : outcome (option (list Cid * nat))) (tr : trace) :
  scanLocal ctx mapping ks2 misses n s = (r, s', tr) ->
  (exists k, store_calls tr = map Store_Get (firstn k ks2))
  /\ ~ In Close_out tr
  /\ (forall m' n', r = Returns (Some (m', n')) ->
        (exists ms, m' = misses ++ ms /\ sublist ms ks2)
        /\ n' = n + length (sent tr))
  /\ (forall i, Done ctx i = true -> n <= i -> n + length (sent tr) <= i).
Proof.
  revert misses n s s' r tr.
  induction ks2 as [|c rest IH]; intros misses n s s' r tr Hrun.
  - run. inversion Hrun; subst. simpl.
    split; [now exists 0|]. split; [tauto|]. split.
    + intros m' n' Heq. inversion Heq; subst. split; [|lia].
      exists []. rewrite app_nil_r. split; [reflexivity|constructor].
    + intros i _ Hle. lia.
  - simpl in Hrun. run.
    destruct (blockstore_Get (blockstore s) c) as [[hit|e] st1].
    + destruct (NewAutoDecryptedBlock (RawData hit) (mapping !! KeyString c))
        as [hit'|e].
      * unfold select_send in Hrun.
        destruct (Done ctx n) eqn:Hdone; run.
        { inversion Hrun; subst. simpl.
          split; [now exists 1|]. split; [intros [Hev|[]]; discriminate|].
          split; [discriminate|]. intros i _ Hle. lia. }
        destruct (scanLocal ctx mapping rest misses (n + 1) _)
          as [[r0 s0] tr0] eqn:Hrest.
        apply IH in Hrest as ([k Hk] & Hclose & Hmiss & Hcancel).
        inversion Hrun; subst. simpl. split; [|split; [|split]].
        -- exists (S k). simpl. now rewrite Hk.
        -- intros [Hev|[Hev|Hin]]; try discriminate. now apply Hclose.
        -- intros m' n' Heq.
           destruct (Hmiss m' n' Heq) as ((ms & Hms & Hsub) & Hn').
           split; [|lia]. exists ms. split; [exact Hms|now constructor].
        -- intros i Hi Hle.
           assert (n <> i) by (intros ->; congruence).
           specialize (Hcancel i Hi). lia.
      * destruct (scanLocal ctx mapping rest misses n _)
          as [[r0 s0] tr0] eqn:Hrest.
        apply IH in Hrest as ([k Hk] & Hclose & Hmiss & Hcancel).
        inversion Hrun; subst. simpl. split; [|split; [|split]].
        -- exists (S k). simpl. now rewrite Hk.
        -- intros [Hev|Hin]; [discriminate|]. now apply Hclose.
        -- intros m' n' Heq.
           destruct (Hmiss m' n' Heq) as ((ms & Hms & Hsub) & Hn').
           split; [|exact Hn']. exists ms. split; [exact Hms|now constructor].
        -- exact Hcancel.
    + destruct (scanLocal ctx mapping rest (misses ++ [c]) n _)
        as [[r0 s0] tr0] eqn:Hrest.
      apply IH in Hrest as ([k Hk] & Hclose & Hmiss & Hcancel).
      inversion Hrun; subst. simpl. split; [|split; [|split]].
      * exists (S k). simpl. now rewrite Hk.
      * intros [Hev|Hin]; [discriminate|]. now apply Hclose.
      * intros m' n' Heq.
        destruct (Hmiss m' n' Heq) as ((ms & Hms & Hsub) & Hn').
        split; [|exact Hn']. exists (c :: ms).
        split; [now rewrite Hms, <- app_assoc|now constructor].
      * exact Hcancel.
Qed.

(** What one run of the forwarding loop accounts for: it returns, leaves
    the service alone, calls nobody, and makes no send at a cancelled
    position. *)
Lemma forwardRemote_account (ctx : Context) (mapping : gmap string Cid)
    (rblocks : list Block) (n : nat) (s s' : service)
    (r : outcome unit) (tr : trace) :
  forwardRemote ctx mapping rblocks n s = (r, s', tr) ->
  r = Returns tt /\ s' = s
  /\ exchange_calls tr = []
  /\ ~ In Close_out tr
  /\ (forall i, Done ctx i = true -> n <= i -> n + length (sent tr) <= i).
Proof.
  revert n s s' r tr.
  induction rblocks as [|b rest IH]; intros n s s' r tr Hrun.
  - run. inversion Hrun; subst. simpl. repeat split; auto. intros. lia.
  - simpl in Hrun.
    destruct (NewAutoDecryptedBlock (RawData b)
                (mapping !! KeyString (Block_Cid b))) as [b'|e].
    + unfold select_send in Hrun. destruct (Done ctx n) eqn:Hdone; run.
      { inversion Hrun; subst. simpl. repeat split; auto.
        - intros [Hev|[]]; discriminate.
        - intros. lia. }
      destruct (forwardRemote ctx mapping rest (n + 1) _)
        as [[r0 s0] tr0] eqn:Hrest.
      apply IH in Hrest as (-> & -> & He & Hclose & Hcancel).
      inversion Hrun; subst. simpl. repeat split; auto.
      * intros [Hev|[Hev|Hin]]; try discriminate. now apply Hclose.
      * intros i Hi Hle.
        assert (n <> i) by (intros ->; congruence).
        specialize (Hcancel i Hi). lia.
    + now apply IH in Hrun.
Qed.

(** Every run of [getBlocks] is the validation log, the local scan, one of
    four endings, and the deferred close: no miss or an early return; a
    miss and no exchange; an exchange that refuses; an exchange whose
    stream is forwarded. *)
Lemma getBlocks_shape (ctx : Context) (ks : list Cid) (s s' : service)
    (r : outcome unit) (tr : trace) :
  getBlocks ctx ks s = (r, s', tr) ->
  exists (tr1 tr2 tr3 : trace) (a : option (list Cid * nat)) (s1 : service),
    logUnsafe (publicKeys ks) s = (Returns tt, s, tr1)
    /\ scanLocal ctx (buildMapping ks) (publicKeys ks) [] 0 s
       = (Returns a, s1, tr2)
    /\ tr = tr1 ++ tr2 ++ tr3 ++ [Close_out]
    /\ exchange s1 = exchange s
    /\ ((tr3 = [] /\ r = Returns tt /\ s' = s1
         /\ (a = None \/ exists n, a = Some ([], n)))
        \/ (exists m n,
              a = Some (m, n) /\ m <> [] /\ exchange s1 = None
              /\ tr3 = [] /\ r = Panics /\ s' = s1)
        \/ (exists m n x x' e,
              a = Some (m, n) /\ m <> [] /\ exchange s1 = Some x
              /\ exchange_GetBlocks x ctx m = (Err e, x')
              /\ tr3 = [Exchange_GetBlocks m; Log_Debug "Error with GetBlocks"]
              /\ r = Returns tt)
        \/ (exists m n x x' rblocks tr4,
              a = Some (m, n) /\ m <> [] /\ exchange s1 = Some x
              /\ exchange_GetBlocks x ctx m = (Ok rblocks, x')
              /\ forwardRemote ctx (buildMapping ks) rblocks n
                   {| blockstore := blockstore s1; exchange := Some x';
                      checkFirst := checkFirst s1 |}
                 = (r, s', tr4)
              /\ tr3 = Exchange_GetBlocks m :: tr4)).
Proof.
  intros Hrun.
  unfold getBlocks, getBlocks_task, defer_close_out in Hrun.
  destruct (logUnsafe_run (publicKeys ks) s) as (tr1 & Hlog & _).
  unfold bind at 1 in Hrun. rewrite Hlog in Hrun.
  unfold bind at 1 in Hrun.
  destruct (scanLocal ctx (buildMapping ks) (publicKeys ks) [] 0 s)
    as [[r1 s1] tr2] eqn:Hscan.
  pose proof (scanLocal_frame _ _ _ _ _ _ _ _ _ Hscan) as (Hx & _ & a & ->).
  exists tr1, tr2.
  destruct a as [[m n]|].
  2:{ run. inversion Hrun; subst. exists [], None, s'.
      split; [exact Hlog|]. split; [reflexivity|].
      split; [now rewrite app_nil_r|]. split; [congruence|].
      left. repeat split; auto. }
  destruct m as [|c m]; simpl in Hrun.
  { run. inversion Hrun; subst. exists [], (Some ([], n)), s'.
    split; [exact Hlog|]. split; [reflexivity|].
    split; [now rewrite app_nil_r|]. split; [congruence|].
    left. repeat split; eauto. }
  run. destruct (exchange s1) as [x|] eqn:Hxs1.
  2:{ inversion Hrun; subst. exists [], (Some (c :: m, n)), s'.
      split; [exact Hlog|]. split; [reflexivity|].
      split; [now rewrite app_nil_r|]. split; [congruence|].
      right. left. exists (c :: m), n.
      repeat split; auto; discriminate. }
  destruct (exchange_GetBlocks x ctx (c :: m)) as [[rblocks|e] x'] eqn:Hfetch;
    simpl in Hrun.
  - destruct (forwardRemote ctx (buildMapping ks) rblocks n _)
      as [[r3 s3] tr4] eqn:Hremote.
    inversion Hrun; subst.
    exists (Exchange_GetBlocks (c :: m) :: tr4), (Some (c :: m, n)), s1.
    split; [exact Hlog|]. split; [reflexivity|].
    split; [now rewrite <- app_assoc|]. split; [congruence|].
    right. right. right. exists (c :: m), n, x, x', rblocks, tr4.
    repeat split; auto; discriminate.
  - inversion Hrun; subst.
    exists [Exchange_GetBlocks (c :: m); Log_Debug "Error with GetBlocks"],
      (Some (c :: m, n)), s1.
    split; [exact Hlog|]. split; [reflexivity|].
    split; [now rewrite <- app_assoc|]. split; [congruence|].
    right. right. left. exists (c :: m), n, x, x', e.
    repeat split; auto; discriminate.
Qed.

Lemma logUnsafe_quiet (ks2 : list Cid) (s s' : service) (r : outcome unit)
    (tr : trace) :
  logUnsafe ks2 s = (r, s', tr) ->
  store_calls tr = [] /\ exchange_calls tr = [] /\ sent tr = []
  /\ ~ In Close_out tr.
Proof.
  intros Hrun. pose proof (logUnsafe_no_close _ _ _ _ _ Hrun) as Hclose.
  destruct (logUnsafe_run ks2 s) as (tr' & Hrun' & Hs & He & Hsent).
  rewrite Hrun in Hrun'. inversion Hrun'; subst. auto.
Qed.

(** The same, with what the later proofs need of each part. *)
Lemma getBlocks_summary (ctx : Context) (ks : list Cid) (s s' : service)
    (r : outcome unit) (tr : trace) :
  getBlocks ctx ks s = (r, s', tr) ->
  exists (tr1 tr2 tr3 : trace),
    tr = tr1 ++ tr2 ++ tr3 ++ [Close_out]
    /\ (store_calls tr1 = [] /\ exchange_calls tr1 = [] /\ sent tr1 = []
        /\ ~ In Close_out tr1)
    /\ ((exists k, store_calls tr2 = map Store_Get (firstn k (publicKeys ks)))
        /\ exchange_calls tr2 = [] /\ ~ In Close_out tr2)
    /\ (store_calls tr3 = [] /\ ~ In Close_out tr3)
    /\ (tr3 = []
        \/ exists m post,
            tr3 = Exchange_GetBlocks m :: post
            /\ exchange_calls post = []
            /\ m <> [] /\ sublist m (publicKeys ks))
    /\ (forall i, Done ctx i = true ->
          length (sent tr2) + length (sent tr3) <= i)
    /\ (exchange s <> None -> r = Returns tt).
Proof.
  intros Hrun.
  destruct (getBlocks_shape _ _ _ _ _ _ Hrun)
    as (tr1 & tr2 & tr3 & a & s1 & Hlog & Hscan & Htr & Hx & Hend).
  exists tr1, tr2, tr3. split; [exact Htr|].
  split; [exact (logUnsafe_quiet _ _ _ _ _ Hlog)|].
  pose proof (scanLocal_frame _ _ _ _ _ _ _ _ _ Hscan) as (_ & He2 & _).
  destruct (scanLocal_account _ _ _ _ _ _ _ _ _ Hscan)
    as (Hk & Hclose2 & Hmiss & Hcancel2).
  split; [auto|].
  assert (Hbound2 : forall i, Done ctx i = true -> length (sent tr2) <= i).
  { intros i Hi. specialize (Hcancel2 i Hi). lia. }
  destruct Hend as [(-> & -> & _ & _)
                   |[(m & n & -> & Hm & Hnil & -> & -> & _)
                   |[(m & n & x & x' & e & -> & Hm & Hsome & _ & -> & ->)
                    |(m & n & x & x' & rblocks & tr4 & -> & Hm & Hsome & _
                      & Hfwd & ->)]]].
  - split; [split; [reflexivity|tauto]|]. split; [now left|].
    split; [|reflexivity].
    intros i Hi. specialize (Hbound2 i Hi). simpl. lia.
  - split; [split; [reflexivity|tauto]|]. split; [now left|].
    split; [|congruence].
    intros i Hi. specialize (Hbound2 i Hi). simpl. lia.
  - destruct (Hmiss m n eq_refl) as ((ms & Hms & Hsub) & _).
    simpl in Hms. subst ms.
    split; [split; [reflexivity|intros [?|[?|[]]]; discriminate]|].
    split; [right; exists m, [Log_Debug "Error with GetBlocks"]; auto|].
    split; [|reflexivity].
    intros i Hi. specialize (Hbound2 i Hi). simpl. lia.
  - destruct (Hmiss m n eq_refl) as ((ms & Hms & Hsub) & Hn).
    simpl in Hms, Hn. subst ms n.
    pose proof (forwardRemote_no_store_calls _ _ _ _ _ _ _ _ Hfwd) as Hs4.
    destruct (forwardRemote_account _ _ _ _ _ _ _ _ Hfwd)
      as (Hr & _ & He4 & Hclose4 & Hcancel4).
    split; [split; [exact Hs4|]|].
    { intros [Hev|Hin]; [discriminate|]. now apply Hclose4. }
    split; [right; exists m, tr4; auto|].
    split; [|intros _; exact Hr].
    intros i Hi. specialize (Hbound2 i Hi).
    specialize (Hcancel4 i Hi Hbound2). simpl. lia.
Qed.

(** X15 — on every path, a panic on a nil fetcher included, the batched
    read closes its output stream exactly once, as the last thing it
    does. *)
Theorem GetBlocks_closes_stream_once_at_the_end
    (ctx : Context) (ks : list Cid) (s : service) :
  exists (r : outcome unit) (s' : service) (tr0 : trace),
    GetBlocks ctx ks s = (r, s', tr0 ++ [Close_out])
    /\ ~ In Close_out tr0.
Proof.
  unfold GetBlocks.
  destruct (getBlocks ctx ks s) as [[r s'] tr] eqn:Hrun.
  destruct (getBlocks_summary _ _ _ _ _ _ Hrun)
    as (tr1 & tr2 & tr3 & -> & (_ & _ & _ & H1) & (_ & _ & H2) & (_ & H3) & _).
  exists r, s', (tr1 ++ tr2 ++ tr3).
  split; [now rewrite <- !app_assoc|].
  intros Hin. apply in_app_or in Hin as [Hin|Hin]; [tauto|].
  apply in_app_or in Hin as [Hin|Hin]; tauto.
Qed.

Lemma only_gets_no_writes (tr : trace) (l : list Cid) :
  store_calls tr = map Store_Get l -> store_writes tr = [].
Proof.
  unfold store_calls, store_writes. revert l.
  induction tr as [|ev tr IH]; intros l Hl; [reflexivity|].
  destruct ev; simpl in *; eauto;
    destruct l as [|c' l]; simpl in Hl; try discriminate.
  inversion Hl. eauto.
Qed.

(** X16 — the batched read never writes to the store: its calls on it are
    [Get]s of the Public Forms of the first keys of the request, one per
    key, in the order of the request. *)
Theorem GetBlocks_only_reads_a_prefix
    (ctx : Context) (ks : list Cid) (s : service) :
  exists (r : outcome unit) (s' : service) (tr : trace) (k : nat),
    GetBlocks ctx ks s = (r, s', tr)
    /\ store_calls tr = map Store_Get (firstn k (publicKeys ks))
    /\ store_writes tr = [].
Proof.
  unfold GetBlocks.
  destruct (getBlocks ctx ks s) as [[r s'] tr] eqn:Hrun.
  destruct (getBlocks_summary _ _ _ _ _ _ Hrun)
    as (tr1 & tr2 & tr3 & -> & (H1 & _) & ([k Hk] & _) & (H3 & _) & _).
  exists r, s', (tr1 ++ tr2 ++ tr3 ++ [Close_out]), k.
  split; [reflexivity|].
  assert (Hcalls : store_calls (tr1 ++ tr2 ++ tr3 ++ [Close_out])
                   = map Store_Get (firstn k (publicKeys ks))).
  { rewrite !store_calls_app, H1, Hk, H3. simpl. now rewrite app_nil_r. }
  split; [exact Hcalls|]. exact (only_gets_no_writes _ _ Hcalls).
Qed.

(** X17 — the batched read calls the exchange at most once: after the
    local scan is over, with a miss list that is not empty and is a sublist
    of the Public Forms of the request; nothing is asked of the store or of
    the exchange after that call. *)
Theorem GetBlocks_one_fetch_after_the_scan
    (ctx : Context) (ks : list Cid) (s : service) :
  exists (r : outcome unit) (s' : service) (tr : trace),
    GetBlocks ctx ks s = (r, s', tr)
    /\ (exchange_calls tr = []
        \/ exists (pre post : trace) (misses : list Cid),
            tr = pre ++ Exchange_GetBlocks misses :: post
            /\ exchange_calls pre = []
            /\ exchange_calls post = [] /\ store_calls post = []
            /\ misses <> [] /\ sublist misses (publicKeys ks)).
Proof.
  unfold GetBlocks.
  destruct (getBlocks ctx ks s) as [[r s'] tr] eqn:Hrun.
  destruct (getBlocks_summary _ _ _ _ _ _ Hrun)
    as (tr1 & tr2 & tr3 & -> & (_ & He1 & _) & (_ & He2 & _) & (Hs3 & _)
        & Htr3 & _).
  exists r, s', (tr1 ++ tr2 ++ tr3 ++ [Close_out]). split; [reflexivity|].
  destruct Htr3 as [->|(m & post & -> & Hpost & Hm & Hsub)].
  - left. rewrite !exchange_calls_app, He1, He2. reflexivity.
  - right. exists (tr1 ++ tr2), (post ++ [Close_out]), m.
    split; [now rewrite <- !app_assoc|].
    split; [now rewrite exchange_calls_app, He1, He2|].
    split; [now rewrite exchange_calls_app, Hpost|].
    split; [|auto].
    rewrite store_calls_app. unfold store_calls in *. simpl in Hs3.
    now rewrite Hs3.
Qed.

(** X18 — cancellation: when the context makes the [select] of the [i]-th
    send take [<-ctx.Done()], the batched read sends at most [i] blocks. *)
Theorem GetBlocks_sends_nothing_past_cancellation
    (ctx : Context) (ks : list Cid) (s : service) (i : nat) :
  Done ctx i = true ->
  exists (r : outcome unit) (s' : service) (tr : trace),
    GetBlocks ctx ks s = (r, s', tr)
    /\ length (sent tr) <= i.
Proof.
  intros Hi. unfold GetBlocks.
  destruct (getBlocks ctx ks s) as [[r s'] tr] eqn:Hrun.
  destruct (getBlocks_summary _ _ _ _ _ _ Hrun)
    as (tr1 & tr2 & tr3 & -> & (_ & _ & Hs1 & _) & _ & _ & _ & Hbound & _).
  exists r, s', (tr1 ++ tr2 ++ tr3 ++ [Close_out]). split; [reflexivity|].
  rewrite !sent_app, Hs1, !length_app. simpl.
  specialize (Hbound i Hi). lia.
Qed.

(** X20 — a request of one valid key that the store holds, with a context
    that lets the first send through: the batched read sends exactly the
    block that the single-key read returns for that key, or nothing when
    the single-key read fails on the projection; the exchange is not
    called. *)
Theorem GetBlocks_single_held_key
    (ctx : Context) (c : Cid) (s : service) (blk : Block) (st' : BS) :
  ValidateCid (ToPublic c) = None ->
  blockstore_Get (blockstore s) (ToPublic c) = (Ok blk, st') ->
  Done ctx 0 = false ->
  exists (single : result Block) (s1 s2 : service) (tr1 tr2 : trace),
    GetBlock ctx c s = (Returns single, s1, tr1)
    /\ GetBlocks ctx [c] s = (Returns tt, s2, tr2)
    /\ exchange_calls tr2 = []
    /\ sent tr2 = match single with
                  | Ok b => [b]
                  | Err _ => []
                  end.
Proof.
  intros Hvalid Hget Hlive.
  exists (NewAutoDecryptedBlock (RawData blk) (Some c)).
  cut (exists (s2 : service) (tr2 : trace),
          GetBlocks ctx [c] s = (Returns tt, s2, tr2)
          /\ exchange_calls tr2 = []
          /\ sent tr2
             = match NewAutoDecryptedBlock (RawData blk) (Some c) with
               | Ok b => [b]
               | Err _ => []
               end).
  { intros (s2 & tr2 & Hrun & He & Hsent).
    unfold GetBlock, getBlock. rewrite Hvalid. run. rewrite Hget. simpl.
    do 4 eexists. split; [reflexivity|]. eauto. }
  clear Hvalid.
  unfold GetBlocks, getBlocks, getBlocks_task, defer_close_out.
  unfold publicKeys, buildMapping, select_send. simpl.
  rewrite lookup_insert_eq.
  destruct (ValidateCid (ToPublic c)); run;
    rewrite Hget; simpl;
    (destruct (NewAutoDecryptedBlock (RawData blk) (Some c)); simpl;
     [unfold select_send; rewrite Hlive; run|]);
    do 2 eexists; repeat split; reflexivity.
Qed.

Lemma foldl_mapping_untouched (ks : list Cid) (m0 : gmap string Cid)
    (k : string) :
  (forall c', In c' ks -> KeyString (ToPublic c') <> k) ->
  foldl (fun m c => <[KeyString (ToPublic c) := c]> m) m0 ks !! k = m0 !! k.
Proof.
  revert m0. induction ks as [|a ks IH]; intros m0 Hother; simpl.
  - reflexivity.
  - rewrite IH by (intros c' Hc'; apply Hother; now right).
    apply lookup_insert_ne. apply Hother. now left.
Qed.

(** X21 — the reverse mapping of the batched read: a key string has an
    entry exactly when it is the key string of the Public Form of a
    requested key, and when several requested keys share a Public Form the
    entry is the last of them. *)
Theorem buildMapping_last_requester_wins
    (ks1 ks2 : list Cid) (c : Cid) :
  (forall c', In c' ks2 ->
              KeyString (ToPublic c') <> KeyString (ToPublic c)) ->
  buildMapping (ks1 ++ c :: ks2) !! KeyString (ToPublic c) = Some c
  /\ (forall k : string,
        is_Some (buildMapping (ks1 ++ c :: ks2) !! k)
        <-> In k (map KeyString (publicKeys (ks1 ++ c :: ks2)))).
Proof.
  intros Hother. split.
  - unfold buildMapping. rewrite foldl_app. simpl.
    rewrite foldl_mapping_untouched by exact Hother.
    apply lookup_insert_eq.
  - intros k. split.
    + intros [c0 Hc0]. apply buildMapping_lookup in Hc0 as [Hin <-].
      unfold publicKeys. rewrite map_map.
      now apply (in_map (fun c => KeyString (ToPublic c))).
    + apply buildMapping_is_Some.
Qed.

(** ** Which error a batch reports, and what a batched miss does *)

Lemma toPublicAll_first_error (pre post : list Block) (b : Block)
    (e : error) :
  Forall (fun b' => exists b2, publicOf b' = Ok b2) pre ->
  publicOf b = Err e ->
  toPublicAll (pre ++ b :: post) = Err e.
Proof.
  intros Hpre Hb. induction Hpre as [|b' pre [b2 Hb'] _ IH]; simpl.
  - now rewrite Hb.
  - now rewrite Hb', IH.
Qed.

Lemma validateAll_first_error (pre post : list Block) (b2 : Block)
    (e : error) :
  Forall (fun b' => ValidateCid (Block_Cid b') = None) pre ->
  ValidateCid (Block_Cid b2) = Some e ->
  validateAll (pre ++ b2 :: post) = Some e.
Proof.
  intros Hpre Hb. induction Hpre as [|b' pre Hb' _ IH]; simpl.
  - now rewrite Hb.
  - now rewrite Hb', IH.
Qed.

(** X22 — which error [AddBlocks] reports: the error of the first block
    of the batch whose [ToPublic] fails, even when an earlier block has an
    inadmissible identifier; and when every [ToPublic] succeeds, the
    validation error of the first block that has one.  In both cases the
    service is left untouched. *)
Theorem AddBlocks_reports_first_failure
    (pre post bs bs2pre bs2post : list Block) (b b2 : Block)
    (e e2 : error) (s : service) :
  (Forall (fun b' => exists b'2, publicOf b' = Ok b'2) pre ->
   publicOf b = Err e ->
   AddBlocks (pre ++ b :: post) s = (Returns (Some e), s, []))
  /\ (Forall2 (fun b' b'2 => publicOf b' = Ok b'2) bs
        (bs2pre ++ b2 :: bs2post) ->
      Forall (fun b' => ValidateCid (Block_Cid b') = None) bs2pre ->
      ValidateCid (Block_Cid b2) = Some e2 ->
      AddBlocks bs s = (Returns (Some e2), s, [])).
Proof.
  split.
  - intros Hpre Hb. unfold AddBlocks.
    now rewrite (toPublicAll_first_error _ _ _ _ Hpre Hb).
  - intros Hpub Hpre Hb. unfold AddBlocks.
    rewrite (toPublicAll_of_Forall2 _ _ Hpub).
    now rewrite (validateAll_first_error _ _ _ _ Hpre Hb).
Qed.

(** X23 — in the batched read every failure of the store's [Get], not only
    [blockstore.ErrNotFound], counts as a miss: for a request of one key,
    whatever error [Get] returns, the exchange is asked for the Public Form
    of that key. *)
Theorem GetBlocks_any_store_error_is_a_miss
    (ctx : Context) (c : Cid) (s : service) (e : error) (st' : BS) :
  blockstore_Get (blockstore s) (ToPublic c) = (Err e, st') ->
  exchange s <> None ->
  exists (s' : service) (tr : trace),
    GetBlocks ctx [c] s = (Returns tt, s', tr)
    /\ store_calls tr = [Store_Get (ToPublic c)]
    /\ exchange_calls tr = [Exchange_GetBlocks [ToPublic c]].
Proof.
  intros Hget Hx.
  unfold GetBlocks, getBlocks, getBlocks_task, defer_close_out.
  unfold publicKeys. simpl.
  destruct (exchange s) as [x|] eqn:Hxs; [|congruence].
  destruct (exchange_GetBlocks x ctx [ToPublic c]) as [[rblocks|e'] x']
    eqn:Hfetch.
  - destruct (forwardRemote ctx (buildMapping [c]) rblocks 0
                {| blockstore := st'; exchange := Some x';
                   checkFirst := checkFirst s |})
      as [[r3 s3] tr4] eqn:Hfwd.
    pose proof (forwardRemote_no_store_calls _ _ _ _ _ _ _ _ Hfwd) as Hs4.
    destruct (forwardRemote_account _ _ _ _ _ _ _ _ Hfwd)
      as (-> & -> & He4 & _).
    destruct (ValidateCid (ToPublic c)); run;
      rewrite Hget; simpl; rewrite Hxs, Hfetch; simpl; rewrite Hfwd;
      (do 2 eexists; split; [reflexivity|]);
      unfold store_calls, exchange_calls in *; simpl;
      rewrite !filter_app_eq, ?Hs4, ?He4; simpl;
      split; reflexivity.
  - destruct (ValidateCid (ToPublic c)); run;
      rewrite Hget; simpl; rewrite Hxs, Hfetch; simpl;
      (do 2 eexists; split; [reflexivity|]); simpl;
      split; reflexivity.
Qed.

(** X24 — a request of one key that the store misses and for which the
    exchange's stream carries one block with the key string of the Public
    Form: that block's payload is projected for the caller's own
    identifier and sent, or dropped when the projection fails; the store is
    not written. *)
Theorem GetBlocks_single_remote_key
    (ctx : Context) (c : Cid) (s : service) (e : error) (st' : BS)
    (x x' : EX) (b : Block) :
  blockstore_Get (blockstore s) (ToPublic c) = (Err e, st') ->
  exchange s = Some x ->
  exchange_GetBlocks x ctx [ToPublic c] = (Ok [b], x') ->
  KeyString (Block_Cid b) = KeyString (ToPublic c) ->
  Done ctx 0 = false ->
  exists (s' : service) (tr : trace),
    GetBlocks ctx [c] s = (Returns tt, s', tr)
    /\ store_writes tr = []
    /\ sent tr = match NewAutoDecryptedBlock (RawData b) (Some c) with
                 | Ok b' => [b']
                 | Err _ => []
                 end.
Proof.
  intros Hget Hx Hfetch Hkey Hlive.
  unfold GetBlocks, getBlocks, getBlocks_task, defer_close_out.
  unfold publicKeys, buildMapping. simpl.
  destruct (ValidateCid (ToPublic c)); run;
    rewrite Hget; simpl; rewrite Hx, Hfetch; simpl;
    rewrite Hkey, lookup_insert_eq;
    (destruct (NewAutoDecryptedBlock (RawData b) (Some c)); simpl;
     [unfold select_send; rewrite Hlive; run|]);
    do 2 eexists; repeat split; reflexivity.
Qed.

End Properties.

(** * Scenarios on the in-memory instance *)

Import Mem.

(** C1 — what the code does with an inadmissible key: with a context that
    is never cancelled the store is asked for the Public Form of every key
    of the request, admissible or not; at a request with one inadmissible
    key, the key is logged, and then it is looked up in the store and handed
    to the exchange in the miss list all the same. *)
Theorem inadmissible_key_still_requested :
  (forall (ks : list cid) (s : @blockService memStore memExchange),
      store_calls (snd (GetBlocks Background ks s))
      = map Store_Get (publicKeys ks))
  /\ ValidateCid (ToPublic badCid) = Some insecureHash
  /\ GetBlocks Background [badCid] (online emptyStore [])
     = (Returns tt, online emptyStore [],
        [Log_UnsafeCid badCid insecureHash;
         Store_Get badCid;
         Exchange_GetBlocks [badCid];
         Close_out]).
Proof.
  split; [|split; reflexivity].
  intros ks s. apply getBlocks_queries_every_key.
Qed.


(** C3, counterexample — nil exchange and a key that the store does not
    hold, but the context is cancelled when the first local hit is to be
    sent: the task returns without reaching the fetcher. *)
Lemma cancelled_scan_never_reaches_nil_fetcher :
  exchange (New (storeWith [goodBlock]) (None : option memExchange)) = None
  /\ blockstore_Get (storeWith [goodBlock]) (ToPublic otherCid)
     = (Err blockstore_ErrNotFound, storeWith [goodBlock])
  /\ GetBlocks cancelled [goodCid; otherCid]
       (New (storeWith [goodBlock]) (None : option memExchange))
     = (Returns tt, New (storeWith [goodBlock]) None,
        [Store_Get goodCid; Close_out]).
Proof. repeat split; reflexivity. Qed.

(** C5, counterexample — write-through mode, a valid block and a store
    whose [Put] fails: nothing is persisted and nothing is announced. *)
Lemma write_through_put_failure_not_announced :
  checkFirst (NewWriteThrough brokenStore (Some (network []))) = false
  /\ Block_ToPublic goodBlock = Ok goodBlock
  /\ ValidateCid (Block_Cid goodBlock) = None
  /\ exists s' tr,
      AddBlock goodBlock (NewWriteThrough brokenStore (Some (network [])))
      = (Returns (Some ioError), s', tr)
      /\ held (blockstore s') = []
      /\ exchange_calls tr = [].
Proof.
  repeat split.
  exists (NewWriteThrough brokenStore (Some (network []))),
    [Store_Put goodBlock].
  repeat split; reflexivity.
Qed.

(** ** The theorems at concrete inputs *)

Lemma inadmissible_rejected_untouched_witness :
  ValidateCid (ToPublic badCid) = Some insecureHash
  /\ Block_ToPublic badBlock = Ok badBlock
  /\ ValidateCid (Block_Cid badBlock) = Some insecureHash
  /\ (exists tr,
        GetBlock Background badCid (online emptyStore [badBlock])
        = (Returns (Err insecureHash), online emptyStore [badBlock], tr)
        /\ store_calls tr = [] /\ exchange_calls tr = [])
  /\ (exists tr,
        AddBlock badBlock (online emptyStore [badBlock])
        = (Returns (Some insecureHash), online emptyStore [badBlock], tr)
        /\ store_calls tr = [] /\ exchange_calls tr = []).
Proof.
  split; [reflexivity|]. split; [reflexivity|]. split; [reflexivity|].
  apply (inadmissible_rejected_untouched Background badCid badBlock badBlock
           insecureHash insecureHash (online emptyStore [badBlock]));
    reflexivity.
Defined.

Lemma offline_miss_is_not_found_witness :
  exists s' tr,
    GetBlock Background goodCid (offline emptyStore)
    = (Returns (Err ErrNotFound), s', tr)
    /\ exchange_calls tr = []
    /\ exchange s' = None.
Proof.
  apply (offline_miss_is_not_found Background goodCid (offline emptyStore)
           emptyStore); reflexivity.
Defined.

Lemma fallback_only_on_store_not_found_witness :
  (exists s' tr,
      GetBlock Background goodCid (online brokenStore [goodBlock])
      = (Returns (Err ioError), s', tr)
      /\ exchange_calls tr = []
      /\ exchange s' = exchange (online brokenStore [goodBlock]))
  /\ (exists st',
      blockstore_Get emptyStore (ToPublic goodCid)
      = (Err blockstore_ErrNotFound, st')).
Proof.
  split.
  - apply (proj1 (fallback_only_on_store_not_found Background goodCid
                    (online brokenStore [goodBlock])) ioError brokenStore);
      [reflexivity|reflexivity|discriminate].
  - apply (proj2 (fallback_only_on_store_not_found Background goodCid
                    (online emptyStore [goodBlock]))
             (Returns (Ok goodBlock)) (online emptyStore [goodBlock])
             [Log_Debug "BlockService GetBlock";
              Store_Get goodCid;
              Log_Debug "Blockservice: Searching bitswap";
              Exchange_GetBlock goodCid;
              Log_Event "BlockService.BlockFetched" goodCid]);
      [reflexivity|discriminate].
Defined.

Lemma AddBlock_check_first_and_write_through_witness :
  (exists s' tr,
      AddBlock goodBlock (online (storeWith [goodBlock]) [])
      = (Returns None, s', tr)
      /\ store_writes tr = [] /\ exchange_calls tr = []
      /\ blockstore s' = storeWith [goodBlock]
      /\ exchange s' = exchange (online (storeWith [goodBlock]) []))
  /\ (exists r s' tr,
      AddBlock goodBlock
        (NewWriteThrough (storeWith [goodBlock]) (Some (network [])))
      = (r, s', tr)
      /\ store_calls tr = [Store_Put goodBlock]
      /\ blockstore s' = storeWith [goodBlock; goodBlock]
      /\ (forall e, @None error = Some e ->
            r = Returns (Some e) /\ exchange_calls tr = [])
      /\ (@None error = None ->
          exchange (NewWriteThrough (storeWith [goodBlock])
                      (Some (network []))) <> None ->
          exchange_calls tr = [Exchange_HasBlock goodBlock])).
Proof.
  split.
  - refine (proj1 (AddBlock_check_first_and_write_through goodBlock goodBlock
                     (online (storeWith [goodBlock]) []) _ _)
              (storeWith [goodBlock]) _ _); reflexivity.
  - refine (proj2 (AddBlock_check_first_and_write_through goodBlock goodBlock
                     (NewWriteThrough (storeWith [goodBlock])
                        (Some (network []))) _ _)
              _ None (storeWith [goodBlock; goodBlock]) _); reflexivity.
Defined.

Lemma AddBlocks_invalid_block_aborts_batch_witness :
  exists err tr,
    AddBlocks [goodBlock; otherBlock; badBlock; goodBlock; otherBlock]
      (online emptyStore [])
    = (Returns (Some err), online emptyStore [], tr)
    /\ store_calls tr = [] /\ exchange_calls tr = [].
Proof.
  apply (AddBlocks_invalid_block_aborts_batch
           [goodBlock; otherBlock; badBlock; goodBlock; otherBlock]
           (online emptyStore []) badBlock badBlock insecureHash).
  - simpl. auto.
  - reflexivity.
  - reflexivity.
Defined.

Lemma announce_failure_is_error_without_rollback_witness :
  (exists s',
      AddBlock goodBlock (New emptyStore (Some closedExchange))
      = (Returns (Some ErrClosed), s',
         [Store_Has goodCid] ++
         [Store_Put goodBlock;
          Log_Event "BlockService.BlockAdded" (Block_Cid goodBlock);
          Exchange_HasBlock goodBlock])
      /\ blockstore s' = storeWith [goodBlock])
  /\ (exists s' tr,
      AddBlocks [goodBlock; otherBlock] (New emptyStore (Some closedExchange))
      = (Returns (Some (ErrClosedBecause (ErrOther "bitswap is closed"))),
         s', tr)
      /\ blockstore s' = storeWith [goodBlock; otherBlock]
      /\ store_writes tr = [Store_PutMany [goodBlock; otherBlock]]
      /\ exchange_calls tr = map Exchange_HasBlock ([] ++ [goodBlock])).
Proof.
  split.
  - apply (proj1 announce_failure_is_error_without_rollback
             goodBlock goodBlock
             (New emptyStore (Some closedExchange))
             (New emptyStore (Some closedExchange))
             [Store_Has goodCid] (storeWith [goodBlock])
             closedExchange closedExchange (ErrOther "bitswap is closed"));
      reflexivity.
  - apply (proj2 announce_failure_is_error_without_rollback
             [goodBlock; otherBlock] [goodBlock; otherBlock]
             [goodBlock; otherBlock] [] [otherBlock] goodBlock
             (New emptyStore (Some closedExchange))
             (New emptyStore (Some closedExchange))
             (New (storeWith [goodBlock; otherBlock]) (Some closedExchange))
             [Store_Has goodCid; Store_Has otherCid] []
             (storeWith [goodBlock; otherBlock])
             closedExchange closedExchange (ErrOther "bitswap is closed"));
      reflexivity.
Defined.

Lemma all_local_never_consults_exchange_witness :
  exists s' tr0,
    GetBlocks Background [goodCid; otherCid]
      (offline (storeWith [goodBlock; otherBlock]))
    = (Returns tt, s', tr0 ++ [Close_out])
    /\ exchange_calls (tr0 ++ [Close_out]) = []
    /\ exchange s' = exchange (offline (storeWith [goodBlock; otherBlock])).
Proof.
  apply (all_local_never_consults_exchange Background [goodCid; otherCid]
           (offline (storeWith [goodBlock; otherBlock]))).
  reflexivity.
Defined.

Lemma nil_exchange_batched_miss_panics_witness :
  localHits (buildMapping [goodCid; otherCid]) (storeWith [goodBlock])
    (publicKeys [goodCid; otherCid]) = 1
  /\ Done cancelledAfterOne 1 = true
  /\ (exists s' tr0,
        GetBlocks cancelledAfterOne [goodCid; otherCid]
          (offline (storeWith [goodBlock]))
        = (Panics, s', tr0 ++ [Close_out])
        /\ exchange_calls (tr0 ++ [Close_out]) = [])
  /\ (forall c,
        exists r s' tr,
          GetBlock cancelledAfterOne c (offline (storeWith [goodBlock]))
          = (Returns r, s', tr)).
Proof.
  split; [reflexivity|]. split; [reflexivity|].
  apply (nil_exchange_batched_miss_panics cancelledAfterOne
           [goodCid; otherCid] (offline (storeWith [goodBlock])));
    [reflexivity|reflexivity|].
  intros i Hi.
  change (localHits (buildMapping [goodCid; otherCid])
            (blockstore (offline (storeWith [goodBlock])))
            (publicKeys [goodCid; otherCid])) with 1 in Hi.
  destruct i as [|i]; [reflexivity|lia].
Defined.

Lemma wanted_In (cs : list cid) (b : block) :
  wanted cs b = true -> In (id b) cs.
Proof.
  unfold wanted. intros Hw.
  apply existsb_exists in Hw as (c & Hc & Heq).
  apply bool_decide_eq_true in Heq. now rewrite Heq.
Qed.


(** ** The further properties at concrete inputs *)

Lemma run_eta {A B C : Type} (p : A * B * C) :
  p = (fst (fst p), snd (fst p), snd p).
Proof. now destruct p as [[a b] c]. Qed.

(** Discharges the hypotheses of [H] that hold by computation. *)
Ltac discharge H :=
  repeat match type of H with
         | ?P -> _ =>
             let HP := fresh "HP" in
             assert (HP : P)
               by first [reflexivity | discriminate | repeat constructor];
             specialize (H HP)
         end.

Lemma GetBlock_local_hit_witness :
  exists tr,
    GetBlock Background keyedCid (online (storeWith [goodBlock]) [])
    = (Returns (Ok {| data := payload; id := keyedCid |}),
       online (storeWith [goodBlock]) [], tr)
    /\ store_calls tr = [Store_Get goodCid]
    /\ exchange_calls tr = [].
Proof.
  pose proof (GetBlock_local_hit Background keyedCid
           (online (storeWith [goodBlock]) []) goodBlock
           (storeWith [goodBlock])) as H.
  discharge H. exact H.
Defined.

Lemma GetBlock_remote_hit_not_stored_witness :
  exists tr,
    GetBlock Background keyedCid (online emptyStore [goodBlock])
    = (Returns (Ok {| data := payload; id := keyedCid |}),
       online emptyStore [goodBlock], tr)
    /\ store_calls tr = [Store_Get goodCid]
    /\ exchange_calls tr = [Exchange_GetBlock goodCid].
Proof.
  pose proof (GetBlock_remote_hit_not_stored Background keyedCid
           (online emptyStore [goodBlock]) goodBlock emptyStore
           (network [goodBlock]) (network [goodBlock])) as H.
  discharge H. exact H.
Defined.

Lemma GetBlock_remote_error_witness :
  exists s' tr,
    GetBlock Background goodCid (online emptyStore [])
    = (Returns (Err ErrNotFound), s', tr)
    /\ store_writes tr = [].
Proof.
  pose proof (GetBlock_remote_error Background goodCid (online emptyStore [])
           blockstore_ErrNotFound emptyStore (network []) (network [])) as H.
  discharge H. exact H.
Defined.

Lemma AddBlock_new_block_stored_and_announced_witness :
  AddBlock {| data := payload; id := keyedCid |} (online emptyStore [])
  = (Returns None, online (storeWith [goodBlock]) [],
     [Store_Has goodCid; Store_Put goodBlock;
      Log_Event "BlockService.BlockAdded" goodCid;
      Exchange_HasBlock goodBlock]).
Proof.
  pose proof (AddBlock_new_block_stored_and_announced
           {| data := payload; id := keyedCid |} goodBlock
           (online emptyStore []) emptyStore (storeWith [goodBlock])
           (network []) (network [])) as H.
  discharge H. exact H.
Defined.

Lemma AddBlock_existence_check_error_witness :
  exists s' tr,
    AddBlock goodBlock (online brokenStore [])
    = (Returns (Some ioError), s', tr)
    /\ store_writes tr = [] /\ exchange_calls tr = [].
Proof.
  pose proof (AddBlock_existence_check_error goodBlock goodBlock
           (online brokenStore []) false ioError brokenStore) as H.
  discharge H. exact H.
Defined.

Lemma AddBlock_nil_exchange_panics_after_write_witness :
  AddBlock goodBlock (offline emptyStore)
  = (Panics, offline (storeWith [goodBlock]),
     [Store_Has goodCid] ++
     [Store_Put goodBlock; Log_Event "BlockService.BlockAdded" goodCid]).
Proof.
  pose proof (AddBlock_nil_exchange_panics_after_write goodBlock goodBlock
           (offline emptyStore) (offline emptyStore) [Store_Has goodCid]
           (storeWith [goodBlock])) as H.
  discharge H. exact H.
Defined.

Lemma AddBlock_announces_only_what_it_stored_witness :
  length (store_writes (snd (AddBlock goodBlock (online emptyStore [])))) <= 1
  /\ exists o' st st2,
      Block_ToPublic goodBlock = Ok o'
      /\ blockstore_Put st o' = (None, st2)
      /\ blockstore (snd (fst (AddBlock goodBlock (online emptyStore []))))
         = st2
      /\ store_writes (snd (AddBlock goodBlock (online emptyStore [])))
         = [Store_Put o']
      /\ exchange_calls (snd (AddBlock goodBlock (online emptyStore [])))
         = [Exchange_HasBlock o'].
Proof.
  destruct (AddBlock_announces_only_what_it_stored goodBlock
              (online emptyStore [])
              (snd (fst (AddBlock goodBlock (online emptyStore []))))
              (fst (fst (AddBlock goodBlock (online emptyStore []))))
              (snd (AddBlock goodBlock (online emptyStore [])))
              (run_eta (AddBlock goodBlock (online emptyStore []))))
    as [Hone Hstored].
  split; [exact Hone|]. apply Hstored. discriminate.
Defined.

Lemma AddBlocks_write_through_stores_and_announces_all_witness :
  exists s' tr,
    AddBlocks [{| data := payload; id := keyedCid |}; otherBlock]
      (NewWriteThrough (storeWith [goodBlock]) (Some (network [])))
    = (Returns None, s', tr)
    /\ blockstore s' = storeWith [goodBlock; goodBlock; otherBlock]
    /\ store_calls tr = [Store_PutMany [goodBlock; otherBlock]]
    /\ exchange_calls tr = map Exchange_HasBlock [goodBlock; otherBlock].
Proof.
  apply (AddBlocks_write_through_stores_and_announces_all
           (fun x => closed x = false)
           [{| data := payload; id := keyedCid |}; otherBlock]
           [goodBlock; otherBlock]
           (NewWriteThrough (storeWith [goodBlock]) (Some (network [])))
           (storeWith [goodBlock; goodBlock; otherBlock]) (network [])).
  - reflexivity.
  - repeat constructor.
  - repeat constructor.
  - reflexivity.
  - reflexivity.
  - reflexivity.
  - intros x b Hopen. simpl. unfold memAnnounce. rewrite Hopen. auto.
Defined.

Lemma AddBlocks_check_first_writes_a_sublist_witness :
  sublist [otherBlock] [goodBlock; otherBlock]
  /\ store_calls
       (snd (AddBlocks [goodBlock; otherBlock]
               (online (storeWith [goodBlock]) [])))
     = map (fun b => Store_Has (Block_Cid b)) [goodBlock; otherBlock]
       ++ [Store_PutMany [otherBlock]].
Proof.
  pose proof (AddBlocks_check_first_writes_a_sublist
                [goodBlock; otherBlock] [goodBlock; otherBlock] [otherBlock]
                (online (storeWith [goodBlock]) [])
                (snd (fst (AddBlocks [goodBlock; otherBlock]
                             (online (storeWith [goodBlock]) []))))
                (fst (fst (AddBlocks [goodBlock; otherBlock]
                             (online (storeWith [goodBlock]) []))))
                (snd (AddBlocks [goodBlock; otherBlock]
                        (online (storeWith [goodBlock]) [])))) as H.
  discharge H. exact H.
Defined.

Lemma AddBlocks_announces_only_what_it_stored_witness :
  length (store_writes
            (snd (AddBlocks [goodBlock; otherBlock]
                    (New emptyStore (Some closedExchange))))) <= 1
  /\ exists toput st st2 k,
      blockstore_PutMany st toput = (None, st2)
      /\ blockstore (snd (fst (AddBlocks [goodBlock; otherBlock]
                                 (New emptyStore (Some closedExchange)))))
         = st2
      /\ store_writes (snd (AddBlocks [goodBlock; otherBlock]
                              (New emptyStore (Some closedExchange))))
         = [Store_PutMany toput]
      /\ exchange_calls (snd (AddBlocks [goodBlock; otherBlock]
                                (New emptyStore (Some closedExchange))))
         = map Exchange_HasBlock (firstn k toput).
Proof.
  destruct (AddBlocks_announces_only_what_it_stored [goodBlock; otherBlock]
              (New emptyStore (Some closedExchange))
              (snd (fst (AddBlocks [goodBlock; otherBlock]
                           (New emptyStore (Some closedExchange)))))
              (fst (fst (AddBlocks [goodBlock; otherBlock]
                           (New emptyStore (Some closedExchange)))))
              (snd (AddBlocks [goodBlock; otherBlock]
                      (New emptyStore (Some closedExchange))))
              (run_eta (AddBlocks [goodBlock; otherBlock]
                          (New emptyStore (Some closedExchange)))))
    as [Hone Hstored].
  split; [exact Hone|]. apply Hstored. discriminate.
Defined.

Lemma AddBlocks_all_held_writes_nothing_witness :
  exists st1 st2 perr s' tr,
    AddBlocks [goodBlock; otherBlock]
      (offline (storeWith [goodBlock; otherBlock]))
    = (Returns perr, s', tr)
    /\ blockstore_PutMany st1 [] = (perr, st2)
    /\ blockstore s' = st2
    /\ store_writes tr = [Store_PutMany []]
    /\ exchange_calls tr = [].
Proof.
  apply (AddBlocks_all_held_writes_nothing [goodBlock; otherBlock]
           [goodBlock; otherBlock]
           (offline (storeWith [goodBlock; otherBlock]))).
  - reflexivity.
  - repeat constructor.
  - repeat constructor.
  - reflexivity.
Defined.

Lemma Close_needs_an_exchange_witness :
  (exists tr, Close (offline emptyStore) = (Panics, offline emptyStore, tr))
  /\ (exists tr,
      Close (online emptyStore [])
      = (Returns None, New emptyStore (Some closedExchange), tr)
      /\ store_calls tr = []
      /\ exchange_calls tr = [Exchange_Close]).
Proof.
  split.
  - pose proof (proj1 (Close_needs_an_exchange (offline emptyStore))) as H.
    discharge H. exact H.
  - pose proof (proj2 (Close_needs_an_exchange (online emptyStore []))
                  (network [])) as H.
    discharge H. exact H.
Defined.

Lemma GetBlocks_sends_nothing_past_cancellation_witness :
  exists r s' tr,
    GetBlocks cancelledAfterOne [goodCid; otherCid]
      (offline (storeWith [goodBlock; otherBlock]))
    = (r, s', tr)
    /\ length (sent tr) <= 1.
Proof.
  apply (GetBlocks_sends_nothing_past_cancellation
           cancelledAfterOne [goodCid; otherCid]
           (offline (storeWith [goodBlock; otherBlock])) 1).
  reflexivity.
Defined.

Lemma GetBlocks_single_held_key_witness :
  exists single s1 s2 tr1 tr2,
    GetBlock Background keyedCid (offline (storeWith [goodBlock]))
    = (Returns single, s1, tr1)
    /\ GetBlocks Background [keyedCid] (offline (storeWith [goodBlock]))
       = (Returns tt, s2, tr2)
    /\ exchange_calls tr2 = []
    /\ sent tr2 = match single with
                  | Ok b => [b]
                  | Err _ => []
                  end.
Proof.
  pose proof (GetBlocks_single_held_key Background keyedCid
           (offline (storeWith [goodBlock])) goodBlock
           (storeWith [goodBlock])) as H.
  discharge H. exact H.
Defined.

Lemma buildMapping_last_requester_wins_witness :
  buildMapping ([keyedCid] ++ keyedCid' :: [otherCid])
    !! KeyString (ToPublic keyedCid') = Some keyedCid'
  /\ (forall k : string,
        is_Some (buildMapping ([keyedCid] ++ keyedCid' :: [otherCid]) !! k)
        <-> In k (map KeyString
                    (publicKeys ([keyedCid] ++ keyedCid' :: [otherCid])))).
Proof.
  apply (buildMapping_last_requester_wins [keyedCid] [otherCid] keyedCid').
  intros c' [<-|[]]. discriminate.
Defined.

Lemma AddBlocks_reports_first_failure_witness :
  @AddBlocks cid block memStore memExchange cidOps strictBlockOps store exch
    ([badBlock] ++ emptyBlock :: [goodBlock]) (online emptyStore [])
  = (Returns (Some (ErrOther "malformed block")), online emptyStore [], [])
  /\ AddBlocks [goodBlock; badBlock; otherBlock] (online emptyStore [])
     = (Returns (Some insecureHash), online emptyStore [], []).
Proof.
  split.
  - pose proof (proj1 (@AddBlocks_reports_first_failure
                         cid block memStore memExchange cidOps strictBlockOps
                         store exch
                         [badBlock] [goodBlock] [] [] [] emptyBlock emptyBlock
                         (ErrOther "malformed block") insecureHash
                         (online emptyStore []))) as H.
    assert (Hpre : Forall (fun b' : block =>
                             exists b'2,
                               @publicOf cid block strictBlockOps b' = Ok b'2)
                     [badBlock]).
    { constructor; [|constructor]. eexists. reflexivity. }
    specialize (H Hpre). discharge H. exact H.
  - pose proof (proj2 (AddBlocks_reports_first_failure
                         [] [] [goodBlock; badBlock; otherBlock]
                         [goodBlock] [otherBlock] goodBlock badBlock
                         insecureHash insecureHash
                         (online emptyStore []))) as H.
    discharge H. exact H.
Defined.

Lemma GetBlocks_any_store_error_is_a_miss_witness :
  exists s' tr,
    GetBlocks Background [goodCid] (online brokenStore [goodBlock])
    = (Returns tt, s', tr)
    /\ store_calls tr = [Store_Get goodCid]
    /\ exchange_calls tr = [Exchange_GetBlocks [goodCid]].
Proof.
  pose proof (GetBlocks_any_store_error_is_a_miss Background goodCid
                (online brokenStore [goodBlock]) ioError brokenStore) as H.
  discharge H. exact H.
Defined.

Lemma GetBlocks_single_remote_key_witness :
  exists s' tr,
    GetBlocks Background [keyedCid] (online emptyStore [goodBlock])
    = (Returns tt, s', tr)
    /\ store_writes tr = []
    /\ sent tr = [{| data := payload; id := keyedCid |}].
Proof.
  pose proof (GetBlocks_single_remote_key Background keyedCid
                (online emptyStore [goodBlock]) blockstore_ErrNotFound
                emptyStore (network [goodBlock]) (network [goodBlock])
                goodBlock) as H.
  discharge H. exact H.
Defined.
